(** * The primitive type system and the feature registry of the engine

    A shallow embedding of [pkg/api] (the [PrimitiveType] tags, their string
    forms, type detection and normalisation of dynamic values) and of
    [internal/engine/engine_bind.go] (binding and unbinding features), with
    the properties the specification states about them. *)

From Stdlib Require Import ZArith String Ascii List Bool Lia PrimFloat Floats.
From stdpp Require Import gmap strings.

Local Open Scope string_scope.
Local Open Scope Z_scope.

(** ** Results of Go evaluations

    A Go call either returns or panics; a panic carries its message. *)

Inductive outcome (A : Type) : Type :=
| Returns (a : A)
| Panics (msg : string).
Arguments Returns {A} a.
Arguments Panics {A} msg.

#[global] Instance outcome_ret : MRet outcome := fun _ a => Returns a.
#[global] Instance outcome_bind : MBind outcome := fun _ _ k o =>
  match o with
  | Returns a => k a
  | Panics m => Panics m
  end.
#[global] Instance outcome_fmap : FMap outcome := fun _ _ f o =>
  match o with
  | Returns a => Returns (f a)
  | Panics m => Panics m
  end.

(** ** Go errors

    [Sentinel] is a package-level [errors.New] value, [NumError] is
    [*strconv.NumError], [Errorf] is [fmt.Errorf] without a [%w] verb (the
    formatted message), [Wrapf] is [fmt.Errorf] with one [%w] verb: the text
    before the verb, the wrapped error, and the text after it, formatted. *)

Inductive strconv_err := ErrSyntax | ErrRange.

Inductive error :=
| Sentinel (name : string)
| NumError (Func Num : string) (Err : strconv_err)
| Errorf (msg : string)
| Wrapf (prefix : string) (inner : error) (suffix : string).

(** [errors.Is err target] for a sentinel target: follow the [%w] chain. *)
Fixpoint errors_Is (err : error) (target : string) : bool :=
  match err with
  | Sentinel n => String.eqb n target
  | Wrapf _ inner _ => errors_Is inner target
  | _ => false
  end.

(** ** [PrimitiveType] *)

Inductive PrimitiveType :=
| PrimitiveTypeUnknown
| PrimitiveTypeString
| PrimitiveTypeInteger
| PrimitiveTypeFloat
| PrimitiveTypeBoolean
| PrimitiveTypeTimestamp
| PrimitiveTypeStringList
| PrimitiveTypeIntegerList
| PrimitiveTypeFloatList
| PrimitiveTypeBooleanList
| PrimitiveTypeTimestampList.

(** [strings.ToLower] on a text that is ASCII only, the first of the
    function's two branches: the letters A to Z are lowered, every other
    byte is kept. The type names of this model and the aliases of the table
    below are such texts. On a text with a byte of 128 or above Go's
    function also lowers the letters outside ASCII; [isASCII] is its test
    for the first branch. *)
Definition lower_ascii (c : ascii) : ascii :=
  let n := nat_of_ascii c in
  if (65 <=? n)%nat && (n <=? 90)%nat then ascii_of_nat (n + 32) else c.

Fixpoint ToLower (s : string) : string :=
  match s with
  | EmptyString => EmptyString
  | String c r => String (lower_ascii c) (ToLower r)
  end.

Fixpoint isASCII (s : string) : bool :=
  match s with
  | EmptyString => true
  | String c r => (nat_of_ascii c <? 128)%nat && isASCII r
  end.

(** One [case a, b, c:] of a [switch] over strings. *)
Fixpoint case_of (x : string) (labels : list string) : bool :=
  match labels with
  | nil => false
  | l :: ls => String.eqb x l || case_of x ls
  end.

Definition StringToPrimitiveType (s : string) : PrimitiveType :=
  let x := ToLower s in
  if case_of x ("string" :: "text" :: nil) then PrimitiveTypeString
  else if case_of x ("integer" :: "int" :: "int32" :: nil) then PrimitiveTypeInteger
  else if case_of x ("float" :: "double" :: "float32" :: "float64" :: nil)
       then PrimitiveTypeFloat
  else if case_of x ("time" :: "datetime" :: "timestamp" :: "time.time"
                       :: "datetime.datetime" :: nil)
       then PrimitiveTypeTimestamp
  else if case_of x ("bool" :: "boolean" :: nil) then PrimitiveTypeBoolean
  else if case_of x ("[]string" :: "[]text" :: nil) then PrimitiveTypeStringList
  else if case_of x ("[]integer" :: "[]int" :: "[]int64" :: "[]int32" :: nil)
       then PrimitiveTypeIntegerList
  else if case_of x ("[]float" :: "[]double" :: "[]float32" :: "[]float64" :: nil)
       then PrimitiveTypeFloatList
  else if case_of x ("[]bool" :: "[]boolean" :: nil) then PrimitiveTypeBooleanList
  else if case_of x ("[]time" :: "[]datetime" :: "[]timestamp" :: "[]time.time" :: nil)
       then PrimitiveTypeTimestampList
  else PrimitiveTypeUnknown.

Definition Scalar (pt : PrimitiveType) : bool :=
  match pt with
  | PrimitiveTypeStringList | PrimitiveTypeIntegerList | PrimitiveTypeFloatList
  | PrimitiveTypeBooleanList | PrimitiveTypeTimestampList => false
  | _ => true
  end.

Definition Singular (pt : PrimitiveType) : PrimitiveType :=
  match pt with
  | PrimitiveTypeStringList => PrimitiveTypeString
  | PrimitiveTypeIntegerList => PrimitiveTypeInteger
  | PrimitiveTypeFloatList => PrimitiveTypeFloat
  | PrimitiveTypeBooleanList => PrimitiveTypeBoolean
  | PrimitiveTypeTimestampList => PrimitiveTypeTimestamp
  | _ => pt
  end.

Definition Plural (pt : PrimitiveType) : PrimitiveType :=
  match pt with
  | PrimitiveTypeString => PrimitiveTypeStringList
  | PrimitiveTypeInteger => PrimitiveTypeIntegerList
  | PrimitiveTypeFloat => PrimitiveTypeFloatList
  | PrimitiveTypeBoolean => PrimitiveTypeBooleanList
  | PrimitiveTypeTimestamp => PrimitiveTypeTimestampList
  | _ => pt
  end.

(** [PrimitiveType.String], the text [%s] prints for a tag. *)
Definition PrimitiveType_String (pt : PrimitiveType) : string :=
  match pt with
  | PrimitiveTypeString => "string"
  | PrimitiveTypeInteger => "int"
  | PrimitiveTypeFloat => "float"
  | PrimitiveTypeBoolean => "bool"
  | PrimitiveTypeTimestamp => "timestamp"
  | PrimitiveTypeStringList => "[]string"
  | PrimitiveTypeIntegerList => "[]int"
  | PrimitiveTypeFloatList => "[]]float"
  | PrimitiveTypeBooleanList => "[]bool"
  | PrimitiveTypeTimestampList => "[]timestamp"
  | PrimitiveTypeUnknown => "(unknown)"
  end.

(** The five scalar tags that carry values, and their five list forms. *)
Definition scalar_tag (pt : PrimitiveType) : bool :=
  match pt with
  | PrimitiveTypeString | PrimitiveTypeInteger | PrimitiveTypeFloat
  | PrimitiveTypeBoolean | PrimitiveTypeTimestamp => true
  | _ => false
  end.

Definition list_tag (pt : PrimitiveType) : bool := negb (Scalar pt).

(** ** Machine integers

    Go's [int] and [int64] are 64 bits wide here; arithmetic on them wraps. *)

Definition minInt64 : Z := - 2 ^ 63.
Definition maxInt64 : Z := 2 ^ 63 - 1.
Definition maxUint64 : Z := 2 ^ 64 - 1.

Definition in_int64 (z : Z) : bool := (minInt64 <=? z) && (z <=? maxInt64).

Definition wrap64 (z : Z) : Z := (z + 2 ^ 63) mod 2 ^ 64 - 2 ^ 63.
Definition add64 (a b : Z) : Z := wrap64 (a + b).
Definition sub64 (a b : Z) : Z := wrap64 (a - b).
Definition mul64 (a b : Z) : Z := wrap64 (a * b).

(** ** [time.Time]

    An instant as the accessors [unixSec] and [nsec] of [time.Time] give it:
    whole seconds since the Unix epoch and the nanoseconds within the second.
    The location and the monotonic reading are not part of the instant. *)

Record Time := mkTime { unixSec : Z; nsec : Z }.

Definition valid_Time (t : Time) : bool :=
  in_int64 (unixSec t) && (0 <=? nsec t) && (nsec t <? 1000000000).

(** [Time.UnixMicro]: [t.unixSec()*1e6 + int64(t.nsec())/1e3]. *)
Definition Time_UnixMicro (t : Time) : Z :=
  add64 (mul64 (unixSec t) 1000000) (Z.quot (nsec t) 1000).

(** [time.Unix(sec, nsec)]. *)
Definition time_Unix (sec nsec : Z) : Time :=
  if (nsec <? 0) || (1000000000 <=? nsec) then
    let n := Z.quot nsec 1000000000 in
    let sec := add64 sec n in
    let nsec := sub64 nsec (mul64 n 1000000000) in
    if nsec <? 0 then mkTime (sub64 sec 1) (add64 nsec 1000000000)
    else mkTime sec nsec
  else mkTime sec nsec.

(** [time.UnixMicro(usec)]: [Unix(usec/1e6, (usec%1e6)*1e3)]. *)
Definition time_UnixMicro (usec : Z) : Time :=
  time_Unix (Z.quot usec 1000000) (mul64 (Z.rem usec 1000000) 1000).

(** ** Go types and dynamic values

    [GoType] is the part of [reflect.Type] the package inspects: the types
    named in the alias table, bytes, the package's own [PrimitiveType], the
    empty interface, slices of them, and [json.RawMessage], a defined type
    whose underlying type is the slice type [[]byte].
    [any] is a value of interface type [any]: the nil interface, or a value
    boxed with its dynamic type. A [Vslice elem l] is a slice of type
    [[]elem]; for [elem = Tinterface] it is a generic list [[]any]. A
    [VRawMessage l] is a [json.RawMessage] of the bytes [l]. *)

Inductive GoType :=
| Tstring | Tint | Tint32 | Tint64 | Tuint8 | Tfloat32 | Tfloat64 | Tbool | TTime
| TPrimitiveType
| TRawMessage
| Tinterface
| Tslice (elem : GoType).

#[global] Instance GoType_eq_dec : EqDecision GoType.
Proof. solve_decision. Defined.

Fixpoint GoType_String (T : GoType) : string :=
  match T with
  | Tstring => "string"
  | Tint => "int"
  | Tint32 => "int32"
  | Tint64 => "int64"
  | Tuint8 => "uint8"
  | Tfloat32 => "float32"
  | Tfloat64 => "float64"
  | Tbool => "bool"
  | TTime => "time.Time"
  | TPrimitiveType => "api.PrimitiveType"
  | TRawMessage => "json.RawMessage"
  | Tinterface => "interface {}"
  | Tslice e => "[]" +:+ GoType_String e
  end.

#[warnings="-register-all"] Inductive any :=
| nil_any
| Vstring (s : string)
| Vint (i : Z)
| Vint32 (i : Z)
| Vint64 (i : Z)
| Vuint8 (i : Z)
| Vfloat32 (f : float)
| Vfloat64 (f : float)
| Vbool (b : bool)
| VTime (t : Time)
| Vprimitive (pt : PrimitiveType)
| VRawMessage (l : list any)
| Vslice (elem : GoType) (l : list any).

(** [reflect.TypeOf]: [None] is the nil [reflect.Type] of the nil interface. *)
Definition reflect_TypeOf (v : any) : option GoType :=
  match v with
  | nil_any => None
  | Vstring _ => Some Tstring
  | Vint _ => Some Tint
  | Vint32 _ => Some Tint32
  | Vint64 _ => Some Tint64
  | Vuint8 _ => Some Tuint8
  | Vfloat32 _ => Some Tfloat32
  | Vfloat64 _ => Some Tfloat64
  | Vbool _ => Some Tbool
  | VTime _ => Some TTime
  | Vprimitive _ => Some TPrimitiveType
  | VRawMessage _ => Some TRawMessage
  | Vslice e _ => Some (Tslice e)
  end.

(** ** [strconv] on integers and booleans *)

Definition digit_char (d : Z) : ascii := ascii_of_nat (48 + Z.to_nat d).
Definition is_digit (c : ascii) : bool :=
  (48 <=? nat_of_ascii c)%nat && (nat_of_ascii c <=? 57)%nat.
Definition digit_val (c : ascii) : Z := Z.of_nat (nat_of_ascii c - 48).

(** [formatBits] in base 10: the digits of [u] are written from the least
    significant one, in front of what the buffer holds; [fuel] is the
    buffer's length. *)
Fixpoint formatBits (fuel : nat) (u : Z) (acc : string) : string :=
  match fuel with
  | O => acc
  | S fuel' =>
      if u <? 10 then String (digit_char u) acc
      else formatBits fuel' (u / 10) (String (digit_char (u mod 10)) acc)
  end.

(** [strconv.FormatInt(i, 10)]. *)
Definition FormatInt (i : Z) : string :=
  if i <? 0 then String "-" (formatBits 65 (- i) "") else formatBits 65 i "".

(** [strconv.Itoa]. *)
Definition Itoa (i : Z) : string := FormatInt i.

(** The loop of [strconv.ParseUint(s, 10, 64)]: a value and, on failure,
    the kind of error. *)
Fixpoint ParseUint_loop (s : string) (n : Z) : Z * option strconv_err :=
  match s with
  | EmptyString => (n, None)
  | String c r =>
      if is_digit c then
        if maxUint64 / 10 + 1 <=? n then (maxUint64, Some ErrRange)
        else
          let n1 := n * 10 + digit_val c in
          if maxUint64 <? n1 then (maxUint64, Some ErrRange)
          else ParseUint_loop r n1
      else (0, Some ErrSyntax)
  end.

Definition ParseUint (s : string) : Z * option strconv_err :=
  match s with
  | EmptyString => (0, Some ErrSyntax)
  | _ => ParseUint_loop s 0
  end.

(** [strconv.ParseInt(s, 10, 64)], with the name [fn] its errors carry. *)
Definition ParseInt_as (fn : string) (s : string) : Z * option error :=
  match s with
  | EmptyString => (0, Some (NumError fn s ErrSyntax))
  | String c r =>
      let neg := Ascii.eqb c "-" in
      let digits := if Ascii.eqb c "+" || neg then r else s in
      match ParseUint digits with
      | (_, Some ErrSyntax) => (0, Some (NumError fn s ErrSyntax))
      | (un, _) =>
          let cutoff := 2 ^ 63 in
          if negb neg && (cutoff <=? un) then (cutoff - 1, Some (NumError fn s ErrRange))
          else if neg && (cutoff <? un) then (- cutoff, Some (NumError fn s ErrRange))
          else (if neg then wrap64 (- wrap64 un) else wrap64 un, None)
      end
  end.

Definition ParseInt (s : string) : Z * option error := ParseInt_as "ParseInt" s.

(** The fast path of [strconv.Atoi]: digits only, no range check. *)
Fixpoint Atoi_loop (s : string) (n : Z) : option Z :=
  match s with
  | EmptyString => Some n
  | String ch r =>
      if is_digit ch then Atoi_loop r (n * 10 + digit_val ch) else None
  end.

Definition Atoi (s : string) : Z * option error :=
  let sLen := String.length s in
  if (0 <? sLen)%nat && (sLen <? 19)%nat then
    match s with
    | EmptyString => (0, Some (NumError "Atoi" s ErrSyntax))
    | String c r =>
        let signed := Ascii.eqb c "-" || Ascii.eqb c "+" in
        let digits := if signed then r else s in
        if signed && (String.length digits <? 1)%nat
        then (0, Some (NumError "Atoi" s ErrSyntax))
        else
          match Atoi_loop digits 0 with
          | None => (0, Some (NumError "Atoi" s ErrSyntax))
          | Some n => (if Ascii.eqb c "-" then - n else n, None)
          end
    end
  else ParseInt_as "Atoi" s.

Definition FormatBool (b : bool) : string := if b then "true" else "false".

Definition ParseBool (str : string) : bool * option error :=
  if case_of str ("1" :: "t" :: "T" :: "true" :: "TRUE" :: "True" :: nil)
  then (true, None)
  else if case_of str ("0" :: "f" :: "F" :: "false" :: "FALSE" :: "False" :: nil)
  then (false, None)
  else (false, Some (NumError "ParseBool" str ErrSyntax)).

(** ** [strconv] on floats

    [strconv.FormatFloat(v, 'f', -1, 64)] and [strconv.ParseFloat(s, 64)]
    belong to Go's library; the package only calls them. [strconv_float] is
    a pair of such functions, which the package's functions are given;
    [strconv], below, is the pair of Go's library. *)

Record strconv_float := {
  FormatFloat : float -> string;
  ParseFloat : string -> float * option error
}.

(** *** From a [float64] to its text

    [strconv.FormatFloat(v, 'f', -1, 64)] writes the shortest decimal that
    reads back as [v]. A [float64] that is neither zero, infinite nor NaN is
    [mant * 2^exp] for a mantissa below [2^53] and an exponent from -1074
    on; the decimals that read back as it are those between the midpoints
    to its two neighbours, the midpoints themselves included when the
    mantissa is even. Go finds the digits with 64- and 128-bit products by
    tabulated powers of ten; the definitions below find the same digits
    with whole numbers of any size. *)

(** [computeBounds]: the two midpoints and the value itself, as whole
    multiples of [2^e2]. Below a power of two the neighbour is half as far
    away. *)
Definition computeBounds (mant exp : Z) : Z * Z * Z * Z :=
  if negb (mant =? 2 ^ 52) || (exp =? -1074)
  then (2 * mant - 1, 2 * mant, 2 * mant + 1, exp - 1)
  else (4 * mant - 1, 4 * mant, 4 * mant + 2, exp - 2).

(** The digits of a decimal, the most significant one first, and the
    position of the decimal point: [0.d1 d2 ... * 10^dp]. *)
Record decimalSlice := mkDecimal { dec_d : list Z; dec_dp : Z }.

Definition dec_nd (d : decimalSlice) : Z := Z.of_nat (length (dec_d d)).

(** The decimal digits of [u], written in front of [acc]. *)
Fixpoint decimal_digits (fuel : nat) (u : Z) (acc : list Z) : list Z :=
  match fuel with
  | O => acc
  | S fuel' =>
      if u <? 10 then u :: acc
      else decimal_digits fuel' (u / 10) (u mod 10 :: acc)
  end.

(** The decimal digits of a positive number; it has no more of them than
    binary digits. *)
Definition digits_of (c : Z) : list Z := decimal_digits (S (Z.to_nat (Z.log2 c))) c nil.

(** The nearest whole number to [num / den], the even one of two that are
    equally near. *)
Definition round_half_even (num den : Z) : Z :=
  let q := num / den in
  let r := num mod den in
  if 2 * r <? den then q
  else if den <? 2 * r then q + 1
  else if Z.even q then q else q + 1.

(** The loop of [ryuDigits]: a digit is cut off the bounds, the lower one
    rounded up and the upper one down, as long as a whole number lies
    between them; [n] counts the digits cut off and [p] is [10^n]. *)
Fixpoint ryuTrim (fuel : nat) (lower upper p n : Z) : Z * Z * Z * Z :=
  match fuel with
  | O => (lower, upper, p, n)
  | S fuel' =>
      let l := (lower + 9) / 10 in
      let u := upper / 10 in
      if l <=? u then ryuTrim fuel' l u (10 * p) (n + 1)
      else (lower, upper, p, n)
  end.

(** [ryuFtoaShortest]: the digits of the shortest decimal between the
    bounds. The bounds are taken as whole multiples of [10^q], for [q] the
    lesser of [e2] and 0; digits are cut off while a decimal remains between
    them; of the decimals that remain, the one nearest to the value is
    taken. *)
Definition ryuFtoaShortest (mant exp : Z) : decimalSlice :=
  if mant =? 0 then mkDecimal nil 0
  else
    let '(ml, mc, mu, e2) := computeBounds mant exp in
    let f := if 0 <=? e2 then 2 ^ e2 else 5 ^ (- e2) in
    let q := Z.min e2 0 in
    let inclusive := Z.even mant in
    let dl := if inclusive then ml * f else ml * f + 1 in
    let du := if inclusive then mu * f else mu * f - 1 in
    let '(l, u, p, n) := ryuTrim (S (Z.to_nat (Z.log2 du))) dl du 1 0 in
    let c := Z.max l (Z.min u (round_half_even (mc * f) p)) in
    mkDecimal (digits_of c) (Z.of_nat (length (digits_of c)) + q + n).

Fixpoint digits_string (ds : list Z) : string :=
  match ds with
  | nil => ""
  | d :: r => String (digit_char d) (digits_string r)
  end.

(** The digit at index [j] of the slice, 0 outside it. *)
Definition digit_at (d : decimalSlice) (j : Z) : Z :=
  if (0 <=? j) && (j <? dec_nd d) then nth (Z.to_nat j) (dec_d d) 0 else 0.

(** [fmtF]: [%f], with [prec] digits after the decimal point. *)
Definition fmtF (neg : bool) (d : decimalSlice) (prec : Z) : string :=
  (if neg then "-" else "")
  +:+ (if 0 <? dec_dp d then
         let m := Z.min (dec_nd d) (dec_dp d) in
         digits_string (take (Z.to_nat m) (dec_d d))
         +:+ digits_string (replicate (Z.to_nat (dec_dp d - m)) 0)
       else "0")
  +:+ (if 0 <? prec then
         String "." (digits_string
                       (map (fun i => digit_at d (dec_dp d + Z.of_nat i))
                            (seq 0 (Z.to_nat prec))))
       else "").

(** [strconv.FormatFloat(v, 'f', -1, 64)]. *)
Definition strconv_FormatFloat (v : float) : string :=
  match Prim2SF v with
  | S754_nan => "NaN"
  | S754_infinity neg => if neg then "-Inf" else "+Inf"
  | S754_zero neg => fmtF neg (ryuFtoaShortest 0 (-1074)) 0
  | S754_finite neg m e =>
      let digs := ryuFtoaShortest (Zpos m) e in
      fmtF neg digs (Z.max (dec_nd digs - dec_dp digs) 0)
  end.

(** *** From a text to the [float64] nearest to it

    [strconv.ParseFloat(s, 64)] reads a decimal or hexadecimal number, or
    the name of an infinity or of NaN, and returns the [float64] nearest to
    the number read. Go rounds with fast paths on the first 19 digits and,
    where they do not decide, with a decimal of up to 800 digits, which
    decide the rounding of every text; the definitions below round the
    number itself. *)

(** [lower(c)]: [c | ('x' - 'X')]. *)
Definition lower (c : ascii) : ascii :=
  match c with
  | Ascii b0 b1 b2 b3 b4 _ b6 b7 => Ascii b0 b1 b2 b3 b4 true b6 b7
  end.

Fixpoint commonPrefixLenIgnoreCase (s prefix : string) : nat :=
  match s, prefix with
  | String c s', String p prefix' =>
      if Ascii.eqb (lower_ascii c) p then S (commonPrefixLenIgnoreCase s' prefix')
      else O
  | _, _ => O
  end.

(** [special]: the texts of the infinities and of NaN, at the front of [s];
    with the value, the number of bytes read. *)
Definition special (s : string) : option (spec_float * nat) :=
  let inf (sign : bool) (nsign : nat) (s : string) :=
    let n := commonPrefixLenIgnoreCase s "infinity" in
    let n := if (3 <? n)%nat && (n <? 8)%nat then 3%nat else n in
    if (n =? 3)%nat || (n =? 8)%nat then Some (S754_infinity sign, (nsign + n)%nat)
    else None in
  match s with
  | EmptyString => None
  | String c r =>
      if Ascii.eqb c "+" then inf false 1%nat r
      else if Ascii.eqb c "-" then inf true 1%nat r
      else if Ascii.eqb c "i" || Ascii.eqb c "I" then inf false 0%nat s
      else if Ascii.eqb c "n" || Ascii.eqb c "N" then
        if (commonPrefixLenIgnoreCase s "nan" =? 3)%nat then Some (S754_nan, 3%nat)
        else None
      else None
  end.

(** What [readFloat] has read of a mantissa: the digits as a number (zeros
    in front left out), how many they are, the position of the point among
    them, and what was seen. *)
Record mantissaText := mkMantissa {
  mt_mantissa : Z;
  mt_nd : Z;
  mt_dp : Z;
  mt_sawdot : bool;
  mt_sawdigits : bool;
  mt_underscores : bool
}.

Definition is_hex_letter (c : ascii) : bool :=
  (97 <=? nat_of_ascii (lower c))%nat && (nat_of_ascii (lower c) <=? 102)%nat.

(** The loop of [readFloat] over the mantissa; what is not read is
    returned. *)
Fixpoint readMantissa (base : Z) (s : string) (st : mantissaText)
  : mantissaText * string :=
  match s with
  | EmptyString => (st, s)
  | String c r =>
      let '(mkMantissa mantissa nd dp sawdot sawdigits underscores) := st in
      if Ascii.eqb c "_" then
        readMantissa base r (mkMantissa mantissa nd dp sawdot sawdigits true)
      else if Ascii.eqb c "." then
        if sawdot then (st, s)
        else readMantissa base r (mkMantissa mantissa nd nd true sawdigits underscores)
      else if is_digit c then
        if Ascii.eqb c "0" && (nd =? 0) then
          readMantissa base r (mkMantissa mantissa nd (dp - 1) sawdot true underscores)
        else
          readMantissa base r
            (mkMantissa (mantissa * base + digit_val c) (nd + 1) dp sawdot true underscores)
      else if (base =? 16) && is_hex_letter c then
        readMantissa base r
          (mkMantissa (mantissa * 16 + (Z.of_nat (nat_of_ascii (lower c)) - 97 + 10))
                      (nd + 1) dp sawdot true underscores)
      else (st, s)
  end.

(** The loop of [readFloat] over the digits of the exponent. *)
Fixpoint readExponent (s : string) (e : Z) (underscores : bool) : Z * bool * string :=
  match s with
  | EmptyString => (e, underscores, s)
  | String c r =>
      if is_digit c then
        readExponent r (if e <? 10000 then e * 10 + digit_val c else e) underscores
      else if Ascii.eqb c "_" then readExponent r e true
      else (e, underscores, s)
  end.

(** [underscoreOK]: an underscore stands only between two digits, or
    between a base prefix and a digit. [saw] is the last byte seen: "^" at
    the start, "0" for a digit or a base prefix, "_", or "!" for another
    byte. *)
Fixpoint underscoreOK_loop (hex : bool) (s : string) (saw : ascii) : bool :=
  match s with
  | EmptyString => negb (Ascii.eqb saw "_")
  | String c r =>
      if is_digit c || (hex && is_hex_letter c) then underscoreOK_loop hex r "0"
      else if Ascii.eqb c "_" then
        if negb (Ascii.eqb saw "0") then false else underscoreOK_loop hex r "_"
      else if Ascii.eqb saw "_" then false
      else underscoreOK_loop hex r "!"
  end.

Definition underscoreOK (s : string) : bool :=
  let s := match s with
           | String c r => if Ascii.eqb c "-" || Ascii.eqb c "+" then r else s
           | EmptyString => s
           end in
  match s with
  | String c0 (String c1 r) =>
      if Ascii.eqb c0 "0"
         && (Ascii.eqb (lower c1) "b" || Ascii.eqb (lower c1) "o" || Ascii.eqb (lower c1) "x")
      then underscoreOK_loop (Ascii.eqb (lower c1) "x") r "0"
      else underscoreOK_loop false s "^"
  | _ => underscoreOK_loop false s "^"
  end.

(** The text [s] without its last [String.length rest] bytes. *)
Definition read_prefix (s rest : string) : string :=
  substring 0 (String.length s - String.length rest) s.

(** The prefix "0x" of a hexadecimal mantissa; it is looked for when a byte
    follows it. *)
Definition hexPrefix (s : string) : bool * string :=
  match s with
  | String c0 (String c1 (String c2 r)) =>
      if Ascii.eqb c0 "0" && Ascii.eqb (lower c1) "x" then (true, String c2 r)
      else (false, s)
  | _ => (false, s)
  end.

(** The exponent, which a hexadecimal mantissa must have: it moves the
    point by [e * esign]. [None] when it is begun and has no digit. *)
Definition readExponentPart (hex : bool) (s : string) (dp : Z) (underscores : bool)
  : option (Z * bool * string) :=
  let expChar := (if hex then "p" else "e")%char in
  match s with
  | String c r =>
      if Ascii.eqb (lower c) expChar then
        match r with
        | EmptyString => None
        | String c1 r1 =>
            let esign := if Ascii.eqb c1 "-" then -1 else 1 in
            let digits := if Ascii.eqb c1 "+" || Ascii.eqb c1 "-" then r1 else r in
            match digits with
            | EmptyString => None
            | String c2 _ =>
                if negb (is_digit c2) then None
                else
                  let '(e, underscores, rest) := readExponent digits 0 underscores in
                  Some (dp + e * esign, underscores, rest)
            end
        end
      else if hex then None else Some (dp, underscores, s)
  | EmptyString => if hex then None else Some (dp, underscores, s)
  end.

(** [readFloat]: the mantissa, the exponent of the base (10, or 2 for a
    hexadecimal mantissa), the sign, whether the mantissa is hexadecimal,
    and what is not read; [None] when the text does not start with a
    number. The digits of the mantissa are all kept. *)
Definition readFloat (s : string) : option (Z * Z * bool * bool * string) :=
  match s with
  | EmptyString => None
  | String c r =>
      let neg := Ascii.eqb c "-" in
      let '(hex, digits) := hexPrefix (if Ascii.eqb c "+" || neg then r else s) in
      let '(mkMantissa mantissa nd dp sawdot sawdigits underscores, rest) :=
        readMantissa (if hex then 16 else 10) digits (mkMantissa 0 0 0 false false false) in
      if negb sawdigits then None
      else
        let dp := if sawdot then dp else nd in
        let dp := if hex then dp * 4 else dp in
        let ndMant := if hex then nd * 4 else nd in
        match readExponentPart hex rest dp underscores with
        | None => None
        | Some (dp, underscores, rest) =>
            let exp := if mantissa =? 0 then 0 else dp - ndMant in
            if underscores && negb (underscoreOK (read_prefix s rest)) then None
            else Some (mantissa, exp, neg, hex, rest)
        end
  end.

(** The [float64] nearest to [num / den], for two positive whole numbers;
    of two that are equally near, the one with the even mantissa. With it,
    whether the value lies beyond the largest [float64]. The quotient is
    taken in units of [2^(s - 1074)], the distance between the [float64]s
    around it. *)
Definition nearest_float64 (neg : bool) (num den : Z) : spec_float * bool :=
  let n := num * 2 ^ 1074 in
  let s := Z.max 0 (Z.log2 (n / den) - 52) in
  let m := round_half_even n (den * 2 ^ s) in
  let '(m, s) := if m =? 2 ^ 53 then (2 ^ 52, s + 1) else (m, s) in
  match m with
  | Zpos p => if 971 <? s - 1074 then (S754_infinity neg, true)
              else (S754_finite neg p (s - 1074), false)
  | _ => (S754_zero neg, false)
  end.

(** [atof64], past the special values: the number [readFloat] has read,
    rounded to the nearest [float64]. *)
Definition float64_of_text (mantissa exp : Z) (neg hex : bool) : spec_float * bool :=
  let base := if hex then 2 else 10 in
  nearest_float64 neg (mantissa * base ^ Z.max exp 0) (base ^ Z.max (- exp) 0).

(** [strconv.ParseFloat(s, 64)]. *)
Definition strconv_ParseFloat (s : string) : float * option error :=
  let syntax := (0%float, Some (NumError "ParseFloat" s ErrSyntax)) in
  match special s with
  | Some (v, n) => if (n =? String.length s)%nat then (SF2Prim v, None) else syntax
  | None =>
      match readFloat s with
      | None => syntax
      | Some (mantissa, exp, neg, hex, rest) =>
          match rest with
          | EmptyString =>
              let '(v, ovf) := float64_of_text mantissa exp neg hex in
              (SF2Prim v, if ovf then Some (NumError "ParseFloat" s ErrRange) else None)
          | _ => syntax
          end
      end
  end.

(** Go's [strconv], for [float64]. *)
Definition strconv : strconv_float :=
  {| FormatFloat := strconv_FormatFloat; ParseFloat := strconv_ParseFloat |}.


(** *** The decimals that round to a [float64] *)

(** [mant * 2^exp] is a [float64], neither zero nor infinite, as its bits
    give it: the mantissa is below [2^53], and at least [2^52] unless the
    exponent is the least one. *)
Definition float64_finite (mant exp : Z) : Prop :=
  0 < mant < 2 ^ 53 /\ -1074 <= exp <= 971 /\ (exp = -1074 \/ 2 ^ 52 <= mant).

Definition between (strict : bool) (a b c : Z) : Prop :=
  if strict then a < b < c else a <= b <= c.

(** [num / den] lies between the bounds of [mant * 2^exp], the bounds
    themselves included when the mantissa is even. *)
Definition rounds_to (mant exp num den : Z) : Prop :=
  let '(ml, _, mu, e2) := computeBounds mant exp in
  between (negb (Z.even mant))
          (ml * 2 ^ (e2 + 1076) * den) (num * 2 ^ 1076) (mu * 2 ^ (e2 + 1076) * den).

(** The number a list of digits writes, after the digits of [acc]. *)
Fixpoint digits_value (ds : list Z) (acc : Z) : Z :=
  match ds with
  | nil => acc
  | d :: r => digits_value r (acc * 10 + d)
  end.

Definition is_digits (ds : list Z) : Prop := Forall (fun d => 0 <= d < 10) ds.

(** The text of the decimal [c * 10^k], without its sign. *)
Definition decimal_text (c k : Z) : string :=
  let ds := digits_of c in
  let nd := Z.of_nat (length ds) in
  if 0 <=? k then digits_string ds +:+ digits_string (replicate (Z.to_nat k) 0)
  else if - k <? nd then
    digits_string (take (Z.to_nat (nd + k)) ds)
    +:+ String "." (digits_string (drop (Z.to_nat (nd + k)) ds))
  else
    String "0" (String "." (digits_string (replicate (Z.to_nat (- k - nd)) 0)
                              +:+ digits_string ds)).


(** ** Zero values

    [PrimitiveType.Interface]: the zero value of a scalar tag; for a list
    tag the empty slice of the singular tag's zero value, made through
    [reflect]; for Unknown the tag itself. [Interface_scalar] is its switch
    over the scalar tags, which the list branch reaches by the call on the
    singular tag. The zero [time.Time] is the first second of year 1. *)

Definition Interface_scalar (pt : PrimitiveType) : any :=
  match pt with
  | PrimitiveTypeString => Vstring ""
  | PrimitiveTypeInteger => Vint 0
  | PrimitiveTypeFloat => Vfloat64 0%float
  | PrimitiveTypeBoolean => Vbool false
  | PrimitiveTypeTimestamp => VTime (mkTime (-62135596800) 0)
  | _ => Vprimitive pt
  end.

Definition Interface (pt : PrimitiveType) : outcome any :=
  if negb (Scalar pt) then
    match reflect_TypeOf (Interface_scalar (Singular pt)) with
    | None => Panics "runtime error: invalid memory address or nil pointer dereference"
    | Some T => Returns (Vslice T nil)
    end
  else Returns (Interface_scalar pt).

(** ** Scalars to and from strings *)

Section Scalars.
Context (F : strconv_float).

Definition ScalarString (val : any) : outcome string :=
  match val with
  | Vstring v => Returns v
  | Vint v => Returns (Itoa v)
  | Vfloat64 v => Returns (FormatFloat F v)
  | Vbool v => Returns (FormatBool v)
  | VTime v => Returns (FormatInt (Time_UnixMicro v))
  | _ => Panics "unreachable"
  end.

Definition ScalarFromString (val : string) (scalar : PrimitiveType)
  : outcome (any * option error) :=
  if negb (Scalar scalar) then
    Returns (nil_any,
             Some (Errorf (PrimitiveType_String scalar +:+ " is not a scalar type")))
  else
    match scalar with
    | PrimitiveTypeString => Returns (Vstring val, None)
    | PrimitiveTypeInteger => let '(n, err) := Atoi val in Returns (Vint n, err)
    | PrimitiveTypeFloat => let '(f, err) := ParseFloat F val in Returns (Vfloat64 f, err)
    | PrimitiveTypeBoolean => let '(b, err) := ParseBool val in Returns (Vbool b, err)
    | PrimitiveTypeTimestamp =>
        match ParseInt val with
        | (_, Some err) => Returns (nil_any, Some err)
        | (n, None) => Returns (VTime (time_UnixMicro n), None)
        end
    | _ => Panics "unreachable"
    end.

(** [ScalarFromString(ScalarString(v), t)]. *)
Definition round_trip (v : any) (t : PrimitiveType) : outcome (any * option error) :=
  s ← ScalarString v; ScalarFromString s t.

End Scalars.

(** ** Type detection and normalisation *)

(** The loop of [TypeDetect]: does every element have the dynamic type of
    element 0? It never runs its body on an empty list. *)
Definition same_type_as_first (l : list any) : bool :=
  match l with
  | nil => true
  | v0 :: _ => forallb (fun v => bool_decide (reflect_TypeOf v = reflect_TypeOf v0)) l
  end.

Fixpoint TypeDetect (t : any) : outcome PrimitiveType :=
  match t with
  | Vslice Tinterface l =>
      if same_type_as_first l then
        match l with
        | nil => Panics "runtime error: index out of range [0] with length 0"
        | v0 :: _ => Plural <$> TypeDetect v0
        end
      else Returns PrimitiveTypeUnknown
  | _ =>
      match reflect_TypeOf t with
      | None => Panics "runtime error: invalid memory address or nil pointer dereference"
      | Some T => Returns (StringToPrimitiveType (GoType_String T))
      end
  end.

(** *** Assignability

    [reflect.Value.Set] stores a value into a slot of type [T] when Go's
    assignability allows it, as [reflect]'s [Value.assignTo] decides it:
    [directlyAssignable], or [implements] when [T] is an interface type.
    [Kind], [HasName] and [Elem] are the methods of [reflect.Type] these
    use: a defined type and every predeclared type have a name, a slice
    type written [[]E] and [interface {}] have none. *)

Inductive Kind :=
| Kbool | Kint | Kint32 | Kint64 | Kuint8 | Kfloat32 | Kfloat64 | Kstring
| Kstruct | Kinterface | Kslice.

#[global] Instance Kind_eq_dec : EqDecision Kind.
Proof. solve_decision. Defined.

Definition GoType_Kind (T : GoType) : Kind :=
  match T with
  | Tstring => Kstring
  | Tint => Kint
  | Tint32 => Kint32
  | Tint64 => Kint64
  | Tuint8 => Kuint8
  | Tfloat32 => Kfloat32
  | Tfloat64 => Kfloat64
  | Tbool => Kbool
  | TTime => Kstruct
  | TPrimitiveType => Kint
  | TRawMessage => Kslice
  | Tinterface => Kinterface
  | Tslice _ => Kslice
  end.

Definition HasName (T : GoType) : bool :=
  match T with
  | Tinterface | Tslice _ => false
  | _ => true
  end.

(** [Type.Elem], of a type of kind slice. *)
Definition Elem (T : GoType) : option GoType :=
  match T with
  | Tslice e => Some e
  | TRawMessage => Some Tuint8
  | _ => None
  end.

(** [haveIdenticalUnderlyingType(T, V, true)]: for types of one kind, the
    types of a non-composite kind share their underlying type, two slice
    types do when their element types are identical. The model has one
    struct type and one interface type, which the first test settles. *)
Definition haveIdenticalUnderlyingType (T V : GoType) : bool :=
  if bool_decide (T = V) then true
  else if negb (bool_decide (GoType_Kind T = GoType_Kind V)) then false
  else
    match GoType_Kind T with
    | Kslice => bool_decide (Elem T = Elem V)
    | Kstruct => false
    | _ => true
    end.

(** [directlyAssignable(T, V)]: identical types; otherwise at least one of
    the two must have no name, they must be of one kind and have identical
    underlying types. *)
Definition directlyAssignable (T V : GoType) : bool :=
  if bool_decide (T = V) then true
  else if (HasName T && HasName V) || negb (bool_decide (GoType_Kind T = GoType_Kind V))
       then false
  else haveIdenticalUnderlyingType T V.

(** [implements(T, V)]: [T] is an interface type and [V] has its methods;
    the interface type of the model has none. *)
Definition implements (T V : GoType) : bool :=
  bool_decide (GoType_Kind T = Kinterface).

(** Can a value of type [V] be set into a slot of type [T]? *)
Definition AssignableTo (V T : GoType) : bool :=
  directlyAssignable T V || implements T V.

(** [Value.assignTo]: the value as one of type [T]; the data is the same,
    only the type changes, between a defined type and its underlying type. *)
Definition assignTo (T : GoType) (v : any) : any :=
  match T, v with
  | TRawMessage, Vslice Tuint8 l => VRawMessage l
  | Tslice Tuint8, VRawMessage l => Vslice Tuint8 l
  | _, _ => v
  end.

(** The message [Value.Set] panics with on a value it cannot set into a
    slot of type [T]: the zero [reflect.Value] of a nil interface, or a
    value of a type that is not assignable to [T]. *)
Definition Set_panic (T : GoType) (v : any) : string :=
  match reflect_TypeOf v with
  | None => "reflect: call of reflect.Value.Set on zero Value"
  | Some V => "reflect.Set: value of type " +:+ GoType_String V
                +:+ " is not assignable to type " +:+ GoType_String T
  end.

(** The loop of [NormalizeAny]: [ret.Index(i).Set(reflect.ValueOf(v2))] for
    each element, into a slice of element type [T]. *)
Fixpoint set_elements (T : GoType) (v : list any) : outcome (list any) :=
  match v with
  | nil => Returns nil
  | v2 :: r =>
      match reflect_TypeOf v2 with
      | None => Panics "reflect: call of reflect.Value.Set on zero Value"
      | Some V =>
          if AssignableTo V T then rs ← set_elements T r; Returns (assignTo T v2 :: rs)
          else Panics ("reflect.Set: value of type " +:+ GoType_String V
                         +:+ " is not assignable to type " +:+ GoType_String T)
      end
  end.

(** [Value.Set] accepts [v] into a slot of type [T]. *)
Definition settable (T : GoType) (v : any) : bool :=
  match reflect_TypeOf v with
  | None => false
  | Some V => AssignableTo V T
  end.

Definition NormalizeAny (t : any) : outcome (any * option error) :=
  match t with
  | Vslice Tinterface v =>
      match v with
      | nil => Returns (nil_any, None)
      | v0 :: _ =>
          match reflect_TypeOf v0 with
          | None => Panics "runtime error: invalid memory address or nil pointer dereference"
          | Some T => ret ← set_elements T v; Returns (Vslice T ret, None)
          end
      end
  | _ => Returns (t, None)
  end.

(** ** The engine's registry

    Modelled from the spec: the records below stand for declarations of the
    repository that the binding code uses but does not contain: the
    [FeatureDescriptor] of [pkg/api] (name, primitive type, freshness,
    staleness, builder kind), the engine's [Feature] (the descriptor and the
    fields the builder plugin populates), the [Feature] manifest, and
    [api.DataSource]. *)

Record FeatureDescriptor := mkFeatureDescriptor {
  FQN : string;
  Primitive : PrimitiveType;
  Freshness : Z;
  Staleness : Z;
  Builder : string
}.

Record Feature := mkFeature {
  descriptor : FeatureDescriptor;
  populated : list string
}.

Record Manifest := mkManifest {
  Name : string;
  Spec_Primitive : string;
  Spec_Freshness : Z;
  Spec_Staleness : Z;
  Spec_Builder_Kind : string;
  Spec_Builder : string
}.

Record DataSource := mkDataSource { ds_FQN : string; ds_Spec : string }.

(** The engine as the binding code sees it: the two key-unique maps and the
    lines its logger has written. With it, the process-wide counter of
    package [stats]. Modelled from the spec: [stats.IncNumberOfFeatures] and
    [stats.DecNumberOfFeatures] move that counter by one. *)

Record engine := mkEngine {
  features : gmap string Feature;
  dataSources : gmap string DataSource;
  logger : list (string * string * string);
  NumberOfFeatures : Z
}.

Definition stats_IncNumberOfFeatures (e : engine) : engine :=
  mkEngine (features e) (dataSources e) (logger e) (NumberOfFeatures e + 1).

Definition stats_DecNumberOfFeatures (e : engine) : engine :=
  mkEngine (features e) (dataSources e) (logger e) (NumberOfFeatures e - 1).

Definition logger_Info (msg key val : string) (e : engine) : engine :=
  mkEngine (features e) (dataSources e) (logger e ++ (msg, key, val) :: nil)
           (NumberOfFeatures e).

Definition features_Store (fqn : string) (f : Feature) (e : engine) : engine :=
  mkEngine (<[fqn := f]> (features e)) (dataSources e) (logger e) (NumberOfFeatures e).

Definition features_Delete (fqn : string) (e : engine) : engine :=
  mkEngine (delete fqn (features e)) (dataSources e) (logger e) (NumberOfFeatures e).

Definition dataSources_Store (fqn : string) (d : DataSource) (e : engine) : engine :=
  mkEngine (features e) (<[fqn := d]> (dataSources e)) (logger e) (NumberOfFeatures e).

Definition dataSources_Delete (fqn : string) (e : engine) : engine :=
  mkEngine (features e) (delete fqn (dataSources e)) (logger e) (NumberOfFeatures e).

(** A method with an [error] result: what it returns and the engine it leaves. *)
Definition method (A : Type) : Type := engine -> A * engine.

(** [defer d] at the top of a method: [d] runs when the body returns, on
    every path. *)
Definition defer {A} (d : engine -> engine) (body : method A) : method A :=
  fun e => let '(a, e') := body e in (a, d e').

Definition ErrFeatureAlreadyExists : string := "ErrFeatureAlreadyExists".

Definition HasFeature (e : engine) (fqn : string) : bool :=
  match features e !! fqn with
  | Some _ => true
  | None => false
  end.

Definition bindFeature (f : Feature) : method (option error) :=
  defer stats_IncNumberOfFeatures (fun e =>
    if HasFeature e (FQN (descriptor f)) then
      (Some (Wrapf "" (Sentinel ErrFeatureAlreadyExists) (": " +:+ FQN (descriptor f))), e)
    else
      let e := features_Store (FQN (descriptor f)) f e in
      let e := logger_Info "feature bound" "FQN" (FQN (descriptor f)) e in
      (None, e)).

Definition UnbindFeature (fqn : string) : method (option error) :=
  defer stats_DecNumberOfFeatures (fun e =>
    let e := features_Delete fqn e in
    let e := logger_Info "feature unbound" "feature" fqn e in
    (None, e)).

(** What [FeatureWithEngine] resolves outside this file: the parser of
    manifests and the registry of feature appliers. An applier is handed the
    feature under construction and the engine, and may change both. *)
Definition FeatureApply : Type :=
  FeatureDescriptor -> string -> Feature -> engine -> (Feature * option error) * engine.

Record plugins := mkPlugins {
  FeatureDescriptorFromManifest : Manifest -> FeatureDescriptor * option error;
  FeatureAppliers : gmap string FeatureApply
}.

Definition FeatureWithEngine (P : plugins) (m : Manifest) : method (Feature + error) :=
  fun e =>
    match FeatureDescriptorFromManifest P m with
    | (_, Some err) =>
        (inr (Wrapf "failed to parse FeatureDescriptor from CR: " err ""), e)
    | (fd, None) =>
        let ft := mkFeature fd nil in
        match FeatureAppliers P !! Builder (descriptor ft) with
        | Some p =>
            match p (descriptor ft) (Spec_Builder m) ft e with
            | ((_, Some err), e') => (inr err, e')
            | ((ft', None), e') => (inl ft', e')
            end
        | None =>
            (inr (Errorf ("no feature builder found for " +:+ Builder (descriptor ft))), e)
        end
    end.

Definition BindFeature (P : plugins) (m : Manifest) : method (option error) :=
  fun e =>
    match FeatureWithEngine P m e with
    | (inr err, e') =>
        (Some (Wrapf "failed to parse FeatureDescriptor from CR: " err ""), e')
    | (inl ft, e') => bindFeature ft e'
    end.

Definition BindDataSource (fd : DataSource) : method (option error) :=
  fun e => (None, dataSources_Store (ds_FQN fd) fd e).

Definition UnbindDataSource (fqn : string) : method (option error) :=
  fun e => (None, dataSources_Delete fqn e).

Definition HasDataSource (e : engine) (fqn : string) : bool :=
  match dataSources e !! fqn with
  | Some _ => true
  | None => false
  end.

Definition GetDataSource (e : engine) (fqn : string) : DataSource * option error :=
  match dataSources e !! fqn with
  | None => (mkDataSource "" "", Some (Errorf ("DataSource " +:+ fqn +:+ " not found")))
  | Some fd => (fd, None)
  end.

(** ** Side conditions of the round trip *)

(** The Unix time of [t] in microseconds is an [int64]. *)
Definition fits_UnixMicro (t : Time) : bool :=
  in_int64 (unixSec t * 1000000 + nsec t / 1000).

(** [t] without its part below the microsecond. *)
Definition Truncate_Microsecond (t : Time) : Time :=
  mkTime (unixSec t) (nsec t / 1000 * 1000).

(** ** Engines, features and plugins to run the code on *)

Definition hello_world : Feature :=
  mkFeature (mkFeatureDescriptor "hello_world" PrimitiveTypeString 0 0 "expression") nil.

Definition hello_world_again : Feature :=
  mkFeature (mkFeatureDescriptor "hello_world" PrimitiveTypeInteger 60 60 "expression")
            ("changed" :: nil).

Definition empty_engine : engine := mkEngine ∅ ∅ nil 0.

(** Plugins for running [BindFeature]: a parser that copies the manifest's
    fields, and one applier, for the builder kind "expression", that leaves
    the feature and the engine as they are. *)
Definition test_plugins : plugins :=
  mkPlugins
    (fun m => (mkFeatureDescriptor (Name m) (StringToPrimitiveType (Spec_Primitive m))
                                   (Spec_Freshness m) (Spec_Staleness m)
                                   (Spec_Builder_Kind m), None))
    {[ "expression" := (fun _ _ ft e => ((ft, None), e)) : FeatureApply ]}.

Definition hello_world_manifest : Manifest :=
  mkManifest "hello_world" "string" 0 0 "expression" "".

Definition sql_manifest : Manifest :=
  mkManifest "daily_total" "int" 60 3600 "sql" "select 1".

Definition clicks_source : DataSource := mkDataSource "clicks" "topic: clicks".
Definition clicks_source_v2 : DataSource := mkDataSource "clicks" "topic: clicks.v2".

(** Plugins with failures: a parser that refuses a manifest whose primitive
    type the alias table does not know, and beside the applier for
    "expression" one, for "broken", that fails on every spec. *)
Definition strict_plugins : plugins :=
  mkPlugins
    (fun m =>
       let fd := mkFeatureDescriptor (Name m) (StringToPrimitiveType (Spec_Primitive m))
                                     (Spec_Freshness m) (Spec_Staleness m)
                                     (Spec_Builder_Kind m) in
       match Primitive fd with
       | PrimitiveTypeUnknown => (fd, Some (Sentinel "ErrUnsupportedPrimitiveError"))
       | _ => (fd, None)
       end)
    (<[ "broken" := (fun _ _ ft e => ((ft, Some (Errorf "bad spec")), e)) : FeatureApply ]>
       {[ "expression" := (fun _ _ ft e => ((ft, None), e)) : FeatureApply ]}).

Definition json_manifest : Manifest :=
  mkManifest "payload" "json" 0 0 "expression" "".

Definition broken_manifest : Manifest :=
  mkManifest "daily_total" "int" 60 3600 "broken" "select".

(** ** Values in range

    What Go's types guarantee of a scalar value and the constructors of
    [any] leave open: an [int], [int32], [int64] or byte lies in its range,
    and a [time.Time] has its nanoseconds within the second. *)

Definition in_int32 (z : Z) : bool := (- 2 ^ 31 <=? z) && (z <=? 2 ^ 31 - 1).

Definition in_range (v : any) : bool :=
  match v with
  | Vint i => in_int64 i
  | Vint32 i => in_int32 i
  | Vint64 i => in_int64 i
  | Vuint8 i => (0 <=? i) && (i <=? 255)
  | VTime t => valid_Time t
  | _ => true
  end.

(** ** Sequences of calls on the registry

    A caller's calls of [bindFeature] and [UnbindFeature], run one after
    the other on an engine. *)

Inductive call :=
| Bind (f : Feature)
| Unbind (fqn : string).

Definition call_FQN (c : call) : string :=
  match c with
  | Bind f => FQN (descriptor f)
  | Unbind fqn => fqn
  end.

Definition step (c : call) (e : engine) : engine :=
  match c with
  | Bind f => snd (bindFeature f e)
  | Unbind fqn => snd (UnbindFeature fqn e)
  end.

Definition run (cs : list call) (e : engine) : engine :=
  fold_left (fun e c => step c e) cs e.

Fixpoint count_Bind (cs : list call) : Z :=
  match cs with
  | nil => 0
  | Bind _ :: r => 1 + count_Bind r
  | Unbind _ :: r => count_Bind r
  end.

Fixpoint count_Unbind (cs : list call) : Z :=
  match cs with
  | nil => 0
  | Bind _ :: r => count_Unbind r
  | Unbind _ :: r => 1 + count_Unbind r
  end.

(** A call that changes the map of features: a bind of a free name, an
    unbind of a bound one. *)
Definition takes_effect (c : call) (e : engine) : bool :=
  match c with
  | Bind f => negb (HasFeature e (FQN (descriptor f)))
  | Unbind fqn => HasFeature e fqn
  end.

Fixpoint all_take_effect (cs : list call) (e : engine) : bool :=
  match cs with
  | nil => true
  | c :: r => takes_effect c e && all_take_effect r (step c e)
  end.

(** The last call of [cs] on the name [fqn]: [Some true] for a bind,
    [Some false] for an unbind, [None] when no call names it. *)
Fixpoint last_call_on (fqn : string) (cs : list call) : option bool :=
  match cs with
  | nil => None
  | c :: r =>
      match last_call_on fqn r with
      | Some b => Some b
      | None =>
          if String.eqb (call_FQN c) fqn
          then Some (match c with Bind _ => true | Unbind _ => false end)
          else None
      end
  end.

(** Every feature is stored under its own name. *)
Definition keyed_by_FQN (e : engine) : Prop :=
  forall k f, features e !! k = Some f -> FQN (descriptor f) = k.

(** * Properties *)

(** ** Singular and plural tags *)

(** A property of the eleven tags under a condition on the tag: check it
    tag by tag. *)
Ltac by_tag t :=
  destruct t; simpl; try reflexivity; try discriminate;
  intros; first [reflexivity | discriminate].

Lemma Singular_Plural_scalar (t : PrimitiveType) :
  Scalar t = true -> Singular (Plural t) = t.
Proof. by_tag t. Qed.

Lemma Plural_Singular_list (t : PrimitiveType) :
  Scalar t = false -> Plural (Singular t) = t.
Proof. by_tag t. Qed.

(** C2, as stated, fails: the spec's sentence pairs the two laws with the
    wrong kinds of tag. For the scalar tag String, [Plural (Singular String)]
    is StringList, and for the list tag StringList,
    [Singular (Plural StringList)] is String. *)
Lemma C2_laws_swapped :
  scalar_tag PrimitiveTypeString = true
  /\ Plural (Singular PrimitiveTypeString) = PrimitiveTypeStringList
  /\ PrimitiveTypeStringList <> PrimitiveTypeString
  /\ list_tag PrimitiveTypeStringList = true
  /\ Singular (Plural PrimitiveTypeStringList) = PrimitiveTypeString.
Proof. repeat split; discriminate. Qed.

(** C2, amended: for every tag [t] that is not a list tag (the five scalars
    and Unknown), [Singular (Plural t) = t]; for every list tag [t],
    [Plural (Singular t) = t]; [Plural] maps the five scalar tags onto the
    five list tags and [Singular] maps them back; Unknown is a fixed point of
    both. *)
Theorem C2_singular_plural_pairing (t : PrimitiveType) :
  (Scalar t = true -> Singular (Plural t) = t)
  /\ (list_tag t = true -> Plural (Singular t) = t)
  /\ (scalar_tag t = true -> list_tag (Plural t) = true)
  /\ (list_tag t = true -> scalar_tag (Singular t) = true)
  /\ Singular PrimitiveTypeUnknown = PrimitiveTypeUnknown
  /\ Plural PrimitiveTypeUnknown = PrimitiveTypeUnknown.
Proof.
  unfold list_tag. repeat split.
  - apply Singular_Plural_scalar.
  - intros H. apply Plural_Singular_list. now apply negb_true_iff in H.
  - by_tag t.
  - by_tag t.
Qed.

(** ** Type detection *)

Lemma reflect_TypeOf_not_interface (v : any) : reflect_TypeOf v <> Some Tinterface.
Proof. destruct v; discriminate. Qed.

(** Off the generic list type, [TypeDetect] is the alias-table lookup of the
    type's name. *)
Lemma TypeDetect_by_name (v : any) (T : GoType) :
  reflect_TypeOf v = Some T -> T <> Tslice Tinterface ->
  TypeDetect v = Returns (StringToPrimitiveType (GoType_String T)).
Proof.
  intros HT Hne. destruct v; simpl in HT; inversion HT; subst; try reflexivity.
  destruct elem; try reflexivity. now destruct Hne.
Qed.

Lemma same_type_as_first_true (v0 : any) (r : list any) :
  same_type_as_first (v0 :: r) = true <->
  Forall (fun v => reflect_TypeOf v = reflect_TypeOf v0) (v0 :: r).
Proof.
  unfold same_type_as_first. rewrite forallb_forall, Forall_forall.
  split; intros H v Hv.
  - apply list_elem_of_In in Hv. apply H in Hv. now apply bool_decide_eq_true in Hv.
  - apply bool_decide_eq_true. apply H. now apply list_elem_of_In.
Qed.

Lemma TypeDetect_generic_cons (v0 : any) (r : list any) :
  TypeDetect (Vslice Tinterface (v0 :: r)) =
  if same_type_as_first (v0 :: r) then Plural <$> TypeDetect v0
  else Returns PrimitiveTypeUnknown.
Proof. reflexivity. Qed.

Lemma TypeDetect_homogeneous (l : list any) (T : GoType) :
  l <> nil -> T <> Tslice Tinterface ->
  Forall (fun v => reflect_TypeOf v = Some T) l ->
  TypeDetect (Vslice Tinterface l) =
  Returns (Plural (StringToPrimitiveType (GoType_String T))).
Proof.
  intros Hl HT Hall. destruct l as [|v0 r]; [now destruct Hl|].
  rewrite TypeDetect_generic_cons.
  assert (H0 : reflect_TypeOf v0 = Some T) by now inversion Hall.
  assert (Hs : same_type_as_first (v0 :: r) = true).
  { apply same_type_as_first_true. rewrite H0. exact Hall. }
  rewrite Hs, (TypeDetect_by_name v0 T H0 HT). reflexivity.
Qed.

Lemma TypeDetect_mixed (l : list any) (v1 v2 : any) :
  v1 ∈ l -> v2 ∈ l -> reflect_TypeOf v1 <> reflect_TypeOf v2 ->
  TypeDetect (Vslice Tinterface l) = Returns PrimitiveTypeUnknown.
Proof.
  intros H1 H2 Hne. destruct l as [|v0 r]; [now apply elem_of_nil in H1|].
  rewrite TypeDetect_generic_cons.
  destruct (same_type_as_first (v0 :: r)) eqn:Hs; [|reflexivity].
  apply same_type_as_first_true in Hs. rewrite Forall_forall in Hs.
  destruct Hne. now rewrite (Hs v1 H1), (Hs v2 H2).
Qed.

(** C3, as stated, fails: the list whose only element is an empty generic
    list is not empty and its elements share one concrete type,
    [[]interface {}], yet [TypeDetect] does not return on it: the recursive
    call on element 0 indexes an empty list. *)
Lemma C3_homogeneous_list_panics :
  let l := Vslice Tinterface nil :: nil in
  l <> nil
  /\ Forall (fun v => reflect_TypeOf v = Some (Tslice Tinterface)) l
  /\ TypeDetect (Vslice Tinterface l) =
     Panics "runtime error: index out of range [0] with length 0".
Proof. cbv zeta. repeat split; [discriminate | repeat constructor]. Qed.

(** C3, amended: for every non-empty dynamic list whose elements all share
    one concrete type [T] other than the generic list type, [TypeDetect]
    returns [Plural] of the tag the alias table gives [T]'s name (Unknown
    for a type outside the table); for every list with two elements of
    differing dynamic types, [TypeDetect] returns Unknown. In particular a
    non-empty list of values of the Go type of a scalar tag [t] (the type of
    [t]'s zero value) is detected as [Plural t]. *)
Theorem C3_TypeDetect_lists (l : list any) :
  (forall T : GoType,
      l <> nil -> T <> Tslice Tinterface ->
      Forall (fun v => reflect_TypeOf v = Some T) l ->
      TypeDetect (Vslice Tinterface l) =
      Returns (Plural (StringToPrimitiveType (GoType_String T))))
  /\ (forall v1 v2 : any,
         v1 ∈ l -> v2 ∈ l -> reflect_TypeOf v1 <> reflect_TypeOf v2 ->
         TypeDetect (Vslice Tinterface l) = Returns PrimitiveTypeUnknown)
  /\ (forall t : PrimitiveType,
         scalar_tag t = true -> l <> nil ->
         Forall (fun v => reflect_TypeOf v = reflect_TypeOf (Interface_scalar t)) l ->
         TypeDetect (Vslice Tinterface l) = Returns (Plural t)).
Proof.
  split; [|split].
  - intros T. apply TypeDetect_homogeneous.
  - apply TypeDetect_mixed.
  - intros t Ht Hl Hall.
    destruct t; try discriminate Ht; cbn [Interface_scalar reflect_TypeOf] in Hall;
      (eapply eq_trans;
       [eapply TypeDetect_homogeneous; [exact Hl | | exact Hall]; discriminate
       | reflexivity]).
Qed.

(** C3 at a list of three strings and at a list of an int and a string. *)
Lemma C3_TypeDetect_lists_witness :
  TypeDetect (Vslice Tinterface (Vstring "a" :: Vstring "b" :: Vstring "" :: nil))
  = Returns PrimitiveTypeStringList
  /\ TypeDetect (Vslice Tinterface (Vint 1 :: Vstring "a" :: nil))
     = Returns PrimitiveTypeUnknown.
Proof.
  split.
  - apply (proj1 (C3_TypeDetect_lists _) Tstring);
      [discriminate | discriminate | repeat constructor].
  - apply (proj1 (proj2 (C3_TypeDetect_lists _)) (Vint 1) (Vstring "a"));
      [repeat constructor | repeat constructor | discriminate].
Defined.

(** C10: on an empty generic list [TypeDetect] returns no tag: after the
    loop, which has nothing to run on, it indexes element 0 and the
    evaluation stops with an index-out-of-range panic. Whenever
    [TypeDetect] returns on a generic list, the list is not empty. *)
Theorem C10_TypeDetect_empty_list :
  TypeDetect (Vslice Tinterface nil)
  = Panics "runtime error: index out of range [0] with length 0"
  /\ (forall pt, TypeDetect (Vslice Tinterface nil) <> Returns pt)
  /\ (forall l pt, TypeDetect (Vslice Tinterface l) = Returns pt -> l <> nil).
Proof.
  repeat split.
  - intros pt; discriminate.
  - intros l pt H ->. discriminate H.
Qed.

(** ** Normalisation *)

Lemma AssignableTo_refl (T : GoType) : AssignableTo T T = true.
Proof.
  unfold AssignableTo, directlyAssignable. now rewrite bool_decide_eq_true_2.
Qed.

(** Two different types that both have a name are not assignable to each
    other. *)
Lemma named_not_assignable (V T : GoType) :
  V <> T -> HasName V = true -> HasName T = true -> AssignableTo V T = false.
Proof.
  intros Hne HV HT. unfold AssignableTo, directlyAssignable, implements.
  rewrite bool_decide_eq_false_2 by congruence. rewrite HV, HT. cbn [andb orb].
  apply bool_decide_eq_false_2. destruct T; try discriminate HT; discriminate.
Qed.

(** Setting a value into a slot of its own type leaves it as it is. *)
Lemma assignTo_same (T : GoType) (x : any) :
  reflect_TypeOf x = Some T -> assignTo T x = x.
Proof.
  intros H. destruct x; simpl in H; inversion H; subst; try reflexivity.
  destruct elem; reflexivity.
Qed.

Lemma settable_same (T : GoType) (x : any) :
  reflect_TypeOf x = Some T -> settable T x = true.
Proof. intros H. unfold settable. rewrite H. apply AssignableTo_refl. Qed.

(** The loop sets every element when each one can be set. *)
Lemma set_elements_settable (T : GoType) (v : list any) :
  forallb (settable T) v = true -> set_elements T v = Returns (map (assignTo T) v).
Proof.
  induction v as [|x r IH]; [reflexivity|].
  cbn [forallb]. intros H. apply andb_prop in H as [Hx Hr].
  unfold settable in Hx. cbn [set_elements map].
  destruct (reflect_TypeOf x) as [V|]; [|discriminate Hx].
  rewrite Hx, (IH Hr). reflexivity.
Qed.

(** The loop stops at the first element that cannot be set. *)
Lemma set_elements_first_failure (T : GoType) (pre post : list any) (v : any) :
  forallb (settable T) pre = true -> settable T v = false ->
  set_elements T (pre ++ v :: post)%list = Panics (Set_panic T v).
Proof.
  intros Hpre Hv. induction pre as [|x r IH]; cbn [app set_elements].
  - unfold settable in Hv. unfold Set_panic.
    destruct (reflect_TypeOf v) as [V|]; [|reflexivity]. now rewrite Hv.
  - cbn [forallb] in Hpre. apply andb_prop in Hpre as [Hx Hr].
    unfold settable in Hx.
    destruct (reflect_TypeOf x) as [V|]; [|discriminate Hx].
    rewrite Hx, (IH Hr). reflexivity.
Qed.

Lemma set_elements_homogeneous (T : GoType) (v : list any) :
  Forall (fun x => reflect_TypeOf x = Some T) v -> set_elements T v = Returns v.
Proof.
  induction 1 as [|x r Hx _ IH]; simpl; [reflexivity|].
  rewrite Hx, AssignableTo_refl. simpl. now rewrite IH, (assignTo_same T x Hx).
Qed.

(** The loop returns exactly when each element can be set. *)
Lemma set_elements_returns (T : GoType) (v ret : list any) :
  set_elements T v = Returns ret -> forallb (settable T) v = true.
Proof.
  revert ret. induction v as [|x r IH]; intros ret H; [reflexivity|].
  cbn [set_elements] in H. cbn [forallb]. unfold settable at 1.
  destruct (reflect_TypeOf x) as [V|]; [|discriminate H].
  destruct (AssignableTo V T); [|discriminate H].
  destruct (set_elements T r) as [rs|] eqn:Hr; [|discriminate H].
  now rewrite (IH rs eq_refl).
Qed.

(** [NormalizeAny] has no path that returns an error. *)
Lemma NormalizeAny_no_error (t ret : any) (err : option error) :
  NormalizeAny t = Returns (ret, err) -> err = None.
Proof.
  unfold NormalizeAny. intros H.
  destruct t; try (inversion H; reflexivity).
  destruct elem; try (inversion H; reflexivity).
  destruct l as [|v0 r]; [inversion H; reflexivity|].
  destruct (reflect_TypeOf v0); [|discriminate H].
  destruct (set_elements g (v0 :: r)); simpl in H; [|discriminate H].
  inversion H; reflexivity.
Qed.

(** On a non-empty generic list, [NormalizeAny] is the loop over the tail:
    element 0 can always be set into a slot of its own type. *)
Lemma NormalizeAny_cons (v0 : any) (r : list any) (T : GoType) :
  reflect_TypeOf v0 = Some T ->
  NormalizeAny (Vslice Tinterface (v0 :: r)) =
  (rs ← set_elements T r; Returns (Vslice T (v0 :: rs), None)).
Proof.
  intros H0. unfold NormalizeAny. rewrite H0. cbn [set_elements].
  rewrite H0, AssignableTo_refl, (assignTo_same T v0 H0).
  now destruct (set_elements T r).
Qed.

(** C4, as stated, fails, in two ways. On the generic list of the int 1 and
    the string "a", [NormalizeAny] returns neither a value nor an error; the
    evaluation stops inside [reflect], where the string is set into a slice
    of ints. On the generic list of a [[]byte] and a [json.RawMessage], two
    elements of different concrete types, it returns a value, the slice of
    two [[]byte], and a nil error. *)
Lemma C4_mixed_list_panics :
  NormalizeAny (Vslice Tinterface (Vint 1 :: Vstring "a" :: nil))
  = Panics "reflect.Set: value of type string is not assignable to type int"
  /\ reflect_TypeOf (Vslice Tuint8 (Vuint8 97 :: nil))
     <> reflect_TypeOf (VRawMessage (Vuint8 98 :: nil))
  /\ NormalizeAny (Vslice Tinterface (Vslice Tuint8 (Vuint8 97 :: nil)
                                        :: VRawMessage (Vuint8 98 :: nil) :: nil))
     = Returns (Vslice (Tslice Tuint8) (Vslice Tuint8 (Vuint8 97 :: nil)
                                          :: Vslice Tuint8 (Vuint8 98 :: nil) :: nil),
                None).
Proof. split; [reflexivity|]. split; [discriminate | reflexivity]. Qed.

(** C4, amended: on a non-empty generic list [NormalizeAny] sets every
    element into a slice of the type [T] of element 0. When element 0 is nil
    it panics at once. When some element cannot be set, because it is nil or
    its type is not assignable to [T], [NormalizeAny] returns neither a value
    nor an error: it panics inside [reflect] at the first such element, with
    [reflect]'s message for that element. When every element can be set, it
    returns the slice of type [[]T] of the elements, each as a value of type
    [T], and a nil error. A type with a name is not assignable to a different
    type with a name, so a list whose element 0 has a named type panics as
    soon as an element has another named type. No TypeMismatch error exists:
    whenever [NormalizeAny] returns, its error is nil. *)
Theorem C4_NormalizeAny_mixed (v0 : any) (r : list any) :
  (reflect_TypeOf v0 = None ->
   NormalizeAny (Vslice Tinterface (v0 :: r))
   = Panics "runtime error: invalid memory address or nil pointer dereference")
  /\ (forall (T : GoType) (pre post : list any) (v : any),
         reflect_TypeOf v0 = Some T -> r = (pre ++ v :: post)%list ->
         forallb (settable T) pre = true -> settable T v = false ->
         NormalizeAny (Vslice Tinterface (v0 :: r)) = Panics (Set_panic T v))
  /\ (forall T : GoType,
         reflect_TypeOf v0 = Some T -> forallb (settable T) r = true ->
         NormalizeAny (Vslice Tinterface (v0 :: r))
         = Returns (Vslice T (map (assignTo T) (v0 :: r)), None))
  /\ (forall (T V : GoType) (v : any),
         reflect_TypeOf v0 = Some T -> v ∈ r -> reflect_TypeOf v = Some V ->
         V <> T -> HasName T = true -> HasName V = true ->
         exists msg, NormalizeAny (Vslice Tinterface (v0 :: r)) = Panics msg)
  /\ (forall ret err,
         NormalizeAny (Vslice Tinterface (v0 :: r)) = Returns (ret, err) -> err = None).
Proof.
  split; [|split; [|split; [|split]]].
  - intros H0. unfold NormalizeAny. now rewrite H0.
  - intros T pre post v H0 -> Hpre Hv.
    rewrite (NormalizeAny_cons v0 _ T H0).
    now rewrite (set_elements_first_failure T pre post v Hpre Hv).
  - intros T H0 Hr.
    rewrite (NormalizeAny_cons v0 _ T H0), (set_elements_settable T r Hr).
    cbn [map]. now rewrite (assignTo_same T v0 H0).
  - intros T V v H0 Hin HV Hne HT HVn.
    rewrite (NormalizeAny_cons v0 _ T H0).
    destruct (set_elements T r) as [rs|msg] eqn:Hs; [|now exists msg].
    apply set_elements_returns in Hs. rewrite forallb_forall in Hs.
    apply list_elem_of_In in Hin. specialize (Hs v Hin). unfold settable in Hs.
    rewrite HV in Hs. now rewrite (named_not_assignable V T Hne HVn HT) in Hs.
  - apply NormalizeAny_no_error.
Qed.

(** C4 at the list of a bool, a second bool, a timestamp and a string: the
    panic is at the timestamp. *)
Lemma C4_NormalizeAny_mixed_witness :
  NormalizeAny (Vslice Tinterface (Vbool true :: Vbool false :: VTime (mkTime 0 0)
                                     :: Vstring "a" :: nil))
  = Panics "reflect.Set: value of type time.Time is not assignable to type bool".
Proof.
  apply (proj1 (proj2 (C4_NormalizeAny_mixed (Vbool true) _)) Tbool
           (Vbool false :: nil) (Vstring "a" :: nil) (VTime (mkTime 0 0)));
    reflexivity.
Defined.

(** C9: on an empty generic list [NormalizeAny] returns the nil value and a
    nil error; the nil value is not a slice of any type, empty or not. *)
Theorem C9_NormalizeAny_empty_list :
  NormalizeAny (Vslice Tinterface nil) = Returns (nil_any, None)
  /\ (forall T l, nil_any <> Vslice T l).
Proof. split; [reflexivity | discriminate]. Qed.

(** ** Scalars and strings: contract violations *)

(** C5, as stated, fails: on a list-typed value, here the empty slice of
    strings, [ScalarString] returns no error (its only result is a string):
    the evaluation panics. *)
Lemma C5_ScalarString_list_panics :
  reflect_TypeOf (Vslice Tstring nil) = Some (Tslice Tstring)
  /\ (forall F, ScalarString F (Vslice Tstring nil) = Panics "unreachable").
Proof. split; reflexivity. Qed.

Section ContractViolations.
Context (F : strconv_float).

(** C5, amended: [ScalarString] on a list-typed value panics with
    "unreachable" and returns nothing; [ScalarFromString] with a list tag
    returns the nil value and an error whose text is the tag's name followed
    by " is not a scalar type", a plain formatted error that wraps no
    sentinel. *)
Theorem C5_contract_violations :
  (forall T l, ScalarString F (Vslice T l) = Panics "unreachable")
  /\ (forall val t,
         list_tag t = true ->
         ScalarFromString F val t =
         Returns (nil_any,
                  Some (Errorf (PrimitiveType_String t +:+ " is not a scalar type"))))
  /\ (forall msg target, errors_Is (Errorf msg) target = false).
Proof.
  repeat split.
  intros val t Ht. unfold list_tag in Ht. unfold ScalarFromString. now rewrite Ht.
Qed.

End ContractViolations.

(** C5 at the empty slice of ints and at the tag IntegerList. *)
Lemma C5_contract_violations_witness :
  (forall F, ScalarString F (Vslice Tint nil) = Panics "unreachable")
  /\ (forall F, ScalarFromString F "1" PrimitiveTypeIntegerList =
                Returns (nil_any, Some (Errorf "[]int is not a scalar type"))).
Proof.
  split; intros F.
  - apply (proj1 (C5_contract_violations F)).
  - apply (proj1 (proj2 (C5_contract_violations F)) "1" PrimitiveTypeIntegerList).
    reflexivity.
Defined.

(** ** Binding and unbinding features *)

Lemma HasFeature_bound (e : engine) (fqn : string) (f0 : Feature) :
  features e !! fqn = Some f0 -> HasFeature e fqn = true.
Proof. unfold HasFeature. now intros ->. Qed.

Lemma HasFeature_unbound (e : engine) (fqn : string) :
  features e !! fqn = None <-> HasFeature e fqn = false.
Proof. unfold HasFeature. destruct (features e !! fqn); split; congruence. Qed.

(** A bind of a bound name: the error, and the engine with only the counter
    moved. *)
Lemma bindFeature_bound (f f0 : Feature) (e : engine) :
  features e !! FQN (descriptor f) = Some f0 ->
  bindFeature f e =
  (Some (Wrapf "" (Sentinel ErrFeatureAlreadyExists) (": " +:+ FQN (descriptor f))),
   stats_IncNumberOfFeatures e).
Proof.
  intros H. unfold bindFeature, defer. now rewrite (HasFeature_bound _ _ _ H).
Qed.

(** A bind of a free name: no error, the feature stored, a line logged, the
    counter moved. *)
Lemma bindFeature_unbound (f : Feature) (e : engine) :
  features e !! FQN (descriptor f) = None ->
  bindFeature f e =
  (None,
   stats_IncNumberOfFeatures
     (logger_Info "feature bound" "FQN" (FQN (descriptor f))
        (features_Store (FQN (descriptor f)) f e))).
Proof.
  intros H. unfold bindFeature, defer.
  now rewrite (proj1 (HasFeature_unbound _ _) H).
Qed.

(** C6: when a feature is bound under the name of [f], binding [f] returns
    an error that wraps ErrFeatureAlreadyExists and leaves the map of
    features as it was, the bound feature included; so of two binds of one
    free name the first succeeds, the second fails, and the first feature
    stays. *)
Theorem C6_bind_is_not_upsert (e : engine) (f f0 : Feature) :
  features e !! FQN (descriptor f) = Some f0 ->
  exists err e',
    bindFeature f e = (Some err, e')
    /\ errors_Is err ErrFeatureAlreadyExists = true
    /\ features e' = features e
    /\ features e' !! FQN (descriptor f) = Some f0.
Proof.
  intros H. rewrite (bindFeature_bound f f0 e H).
  eexists _, _. split; [reflexivity|]. repeat split. exact H.
Qed.

(** C6 at an engine that holds [hello_world], on a bind of another feature
    of the same name. *)
Lemma C6_bind_is_not_upsert_witness :
  exists err e',
    bindFeature hello_world_again (snd (bindFeature hello_world empty_engine))
    = (Some err, e')
    /\ errors_Is err ErrFeatureAlreadyExists = true
    /\ features e' = features (snd (bindFeature hello_world empty_engine))
    /\ features e' !! "hello_world" = Some hello_world.
Proof.
  apply (C6_bind_is_not_upsert
           (snd (bindFeature hello_world empty_engine)) hello_world_again hello_world).
  reflexivity.
Defined.

(** The two binds of one free name, in sequence. *)
Lemma bindFeature_twice (e : engine) (f1 f2 : Feature) :
  FQN (descriptor f2) = FQN (descriptor f1) ->
  features e !! FQN (descriptor f1) = None ->
  exists e1 err e2,
    bindFeature f1 e = (None, e1)
    /\ bindFeature f2 e1 = (Some err, e2)
    /\ errors_Is err ErrFeatureAlreadyExists = true
    /\ features e2 !! FQN (descriptor f1) = Some f1.
Proof.
  intros Hq Hfree. rewrite (bindFeature_unbound f1 e Hfree).
  eexists _, _, _. split; [reflexivity|].
  rewrite (bindFeature_bound f2 f1).
  - repeat split. simpl. apply lookup_insert_eq.
  - rewrite Hq. simpl. apply lookup_insert_eq.
Qed.

(** A failed bind moves the counter all the same: the increment is deferred
    at the top of [bindFeature], ahead of the check. *)
Lemma bindFeature_bound_counter (e : engine) (f f0 : Feature) :
  features e !! FQN (descriptor f) = Some f0 ->
  NumberOfFeatures (snd (bindFeature f e)) = NumberOfFeatures e + 1
  /\ size (features (snd (bindFeature f e))) = size (features e).
Proof. intros H. rewrite (bindFeature_bound f f0 e H). split; reflexivity. Qed.

(** When [FeatureWithEngine] fails, [BindFeature] leaves the counter where
    [FeatureWithEngine] left it. *)
Lemma BindFeature_parse_failure (P : plugins) (m : Manifest) (e e1 : engine) (err : error) :
  FeatureWithEngine P m e = (inr err, e1) ->
  BindFeature P m e =
  (Some (Wrapf "failed to parse FeatureDescriptor from CR: " err ""), e1).
Proof. intros H. unfold BindFeature. now rewrite H. Qed.

Lemma BindFeature_already_bound (P : plugins) (m : Manifest) (e e1 : engine)
      (ft f0 : Feature) :
  FeatureWithEngine P m e = (inl ft, e1) ->
  features e1 !! FQN (descriptor ft) = Some f0 ->
  exists err e2,
    BindFeature P m e = (Some err, e2)
    /\ errors_Is err ErrFeatureAlreadyExists = true
    /\ NumberOfFeatures e2 = NumberOfFeatures e1 + 1.
Proof.
  intros H Hb. unfold BindFeature. rewrite H, (bindFeature_bound ft f0 e1 Hb).
  eexists _, _. repeat split.
Qed.

(** C7 fails on the code: bind [hello_world] on an empty engine, then bind
    it again. The first bind succeeds and the counter goes from 0 to 1; the
    second returns the ErrFeatureAlreadyExists error, the engine still holds
    one feature, and the counter goes to 2. *)
Theorem C7_failed_bind_is_counted :
  let r1 := BindFeature test_plugins hello_world_manifest empty_engine in
  let r2 := BindFeature test_plugins hello_world_manifest (snd r1) in
  fst r1 = None
  /\ NumberOfFeatures (snd r1) = 1
  /\ fst r2 = Some (Wrapf "" (Sentinel ErrFeatureAlreadyExists) ": hello_world")
  /\ size (features (snd r2)) = 1%nat
  /\ NumberOfFeatures (snd r2) = 2.
Proof. cbv zeta. repeat split. Qed.

(** ** Unbinding *)

Lemma HasFeature_after_Unbind (e : engine) (fqn : string) :
  HasFeature (snd (UnbindFeature fqn e)) fqn = false.
Proof.
  apply HasFeature_unbound. unfold UnbindFeature, defer. simpl.
  apply lookup_delete_eq.
Qed.

(** C8: [UnbindFeature] returns no error on any engine and any name, so
    also when called again; after it [HasFeature] is false for the name; and
    for a name that was not bound [HasFeature] is false before as well, and
    the map of features is left as it was. *)
Theorem C8_unbind_idempotent (e : engine) (fqn : string) :
  let r1 := UnbindFeature fqn e in
  let r2 := UnbindFeature fqn (snd r1) in
  fst r1 = None
  /\ HasFeature (snd r1) fqn = false
  /\ fst r2 = None
  /\ HasFeature (snd r2) fqn = false
  /\ (features e !! fqn = None ->
      HasFeature e fqn = false /\ features (snd r1) = features e).
Proof.
  cbv zeta. repeat split.
  - apply HasFeature_after_Unbind.
  - apply HasFeature_after_Unbind.
  - now apply HasFeature_unbound.
  - unfold UnbindFeature, defer. simpl. now apply delete_id.
Qed.

(** C8 at a name bound on the engine and at a name never bound. *)
Lemma C8_unbind_idempotent_witness :
  HasFeature (snd (bindFeature hello_world empty_engine)) "hello_world" = true
  /\ HasFeature (snd (UnbindFeature "hello_world"
                        (snd (bindFeature hello_world empty_engine)))) "hello_world"
     = false
  /\ HasFeature empty_engine "never_bound" = false
  /\ features (snd (UnbindFeature "never_bound" empty_engine)) = features empty_engine.
Proof.
  split; [reflexivity|]. split.
  - apply (C8_unbind_idempotent (snd (bindFeature hello_world empty_engine)) "hello_world").
  - apply (C8_unbind_idempotent empty_engine "never_bound"). reflexivity.
Defined.

(** ** Integers and timestamps through strings *)

Lemma digit_cases (d : Z) :
  0 <= d < 10 ->
  d = 0 \/ d = 1 \/ d = 2 \/ d = 3 \/ d = 4 \/ d = 5 \/ d = 6 \/ d = 7 \/ d = 8 \/ d = 9.
Proof. lia. Qed.

Lemma digit_char_is_digit (d : Z) :
  0 <= d < 10 -> is_digit (digit_char d) = true /\ digit_val (digit_char d) = d.
Proof.
  intros H. destruct (digit_cases d H) as [->|[->|[->|[->|[->|[->|[->|[->|[->| ->]]]]]]]]];
    split; reflexivity.
Qed.

Lemma is_digit_not_sign (c : ascii) :
  is_digit c = true -> Ascii.eqb c "-" = false /\ Ascii.eqb c "+" = false.
Proof.
  intros H. split.
  - destruct (Ascii.eqb_spec c "-") as [->|]; [discriminate H | reflexivity].
  - destruct (Ascii.eqb_spec c "+") as [->|]; [discriminate H | reflexivity].
Qed.

Lemma pow10_succ (f : nat) : 10 ^ Z.of_nat (S f) = 10 * 10 ^ Z.of_nat f.
Proof. rewrite Nat2Z.inj_succ. apply Z.pow_succ_r. lia. Qed.

Lemma Atoi_loop_digit (d : Z) (acc : string) (n : Z) :
  0 <= d < 10 -> Atoi_loop (String (digit_char d) acc) n = Atoi_loop acc (n * 10 + d).
Proof.
  intros H. destruct (digit_char_is_digit d H) as [Hd Hv]. cbn [Atoi_loop]. now rewrite Hd, Hv.
Qed.

Lemma Atoi_loop_formatBits (fuel : nat) :
  forall (u : Z) (acc : string),
    0 <= u < 10 ^ Z.of_nat fuel ->
    Atoi_loop (formatBits fuel u acc) 0 = Atoi_loop acc u.
Proof.
  induction fuel as [|f IH]; intros u acc Hu.
  - change (10 ^ Z.of_nat 0) with 1 in Hu. assert (u = 0) as -> by lia. reflexivity.
  - rewrite pow10_succ in Hu. cbn [formatBits].
    destruct (Z.ltb_spec u 10) as [Hlt|Hge].
    + rewrite Atoi_loop_digit by lia. f_equal.
    + rewrite IH by (split; [apply Z.div_pos; lia | apply Z.div_lt_upper_bound; lia]).
      rewrite Atoi_loop_digit by (apply Z.mod_pos_bound; lia).
      f_equal. pose proof (Z.div_mod u 10). lia.
Qed.

Lemma ParseUint_loop_digit (d : Z) (acc : string) (n : Z) :
  0 <= d < 10 -> 0 <= n -> n * 10 + d <= maxUint64 ->
  ParseUint_loop (String (digit_char d) acc) n = ParseUint_loop acc (n * 10 + d).
Proof.
  intros H Hn Hle. destruct (digit_char_is_digit d H) as [Hd Hv]. cbn [ParseUint_loop].
  rewrite Hd, Hv.
  destruct (Z.leb_spec (maxUint64 / 10 + 1) n) as [Hc|Hc].
  - exfalso. revert Hc Hle. unfold maxUint64. change (2 ^ 64 - 1) with 18446744073709551615.
    change (18446744073709551615 / 10 + 1) with 1844674407370955162. lia.
  - destruct (Z.ltb_spec maxUint64 (n * 10 + d)); [lia | reflexivity].
Qed.

Lemma ParseUint_loop_formatBits (fuel : nat) :
  forall (u : Z) (acc : string),
    0 <= u < 10 ^ Z.of_nat fuel -> u <= maxUint64 ->
    ParseUint_loop (formatBits fuel u acc) 0 = ParseUint_loop acc u.
Proof.
  induction fuel as [|f IH]; intros u acc Hu Hmax.
  - change (10 ^ Z.of_nat 0) with 1 in Hu. assert (u = 0) as -> by lia. reflexivity.
  - rewrite pow10_succ in Hu. cbn [formatBits].
    destruct (Z.ltb_spec u 10) as [Hlt|Hge].
    + rewrite ParseUint_loop_digit by lia. f_equal.
    + assert (Hdm := Z.div_mod u 10 ltac:(lia)).
      assert (Hm := Z.mod_pos_bound u 10 ltac:(lia)).
      rewrite IH by (try split; first [apply Z.div_pos; lia | apply Z.div_lt_upper_bound; lia | lia]).
      rewrite ParseUint_loop_digit by lia.
      f_equal. lia.
Qed.

Lemma formatBits_head (fuel : nat) :
  forall (u : Z) (acc : string),
    0 <= u ->
    exists c r, formatBits (S fuel) u acc = String c r /\ is_digit c = true.
Proof.
  induction fuel as [|f IH]; intros u acc Hu; cbn [formatBits].
  - destruct (Z.ltb_spec u 10).
    + eexists _, _. split; [reflexivity|]. apply digit_char_is_digit. lia.
    + eexists _, _. split; [reflexivity|]. apply digit_char_is_digit.
      apply Z.mod_pos_bound. lia.
  - destruct (Z.ltb_spec u 10).
    + eexists _, _. split; [reflexivity|]. apply digit_char_is_digit. lia.
    + apply (IH (u / 10)). apply Z.div_pos; lia.
Qed.

Lemma in_int64_spec (z : Z) : in_int64 z = true <-> minInt64 <= z <= maxInt64.
Proof. unfold in_int64. rewrite andb_true_iff, !Z.leb_le. reflexivity. Qed.

Lemma int64_bounds : minInt64 = -9223372036854775808 /\ maxInt64 = 9223372036854775807
                     /\ maxUint64 = 18446744073709551615.
Proof. repeat split. Qed.

Lemma wrap64_small (z : Z) : minInt64 <= z <= maxInt64 -> wrap64 z = z.
Proof.
  destruct int64_bounds as (-> & -> & _). intros H. unfold wrap64.
  change (2 ^ 63) with 9223372036854775808. change (2 ^ 64) with 18446744073709551616.
  rewrite Z.mod_small by lia. lia.
Qed.

Lemma wrap64_add_l (a b : Z) : wrap64 (wrap64 a + b) = wrap64 (a + b).
Proof.
  unfold wrap64. f_equal.
  replace ((a + 2 ^ 63) mod 2 ^ 64 - 2 ^ 63 + b + 2 ^ 63)
    with ((a + 2 ^ 63) mod 2 ^ 64 + b) by lia.
  rewrite Zplus_mod_idemp_l. f_equal. lia.
Qed.

Lemma wrap64_neg_magnitude (u : Z) :
  0 <= u <= 2 ^ 63 -> wrap64 (- wrap64 u) = - u.
Proof.
  change (2 ^ 63) with 9223372036854775808. intros H.
  destruct (Z.eq_dec u 9223372036854775808) as [->|Hne]; [reflexivity|].
  destruct int64_bounds as (Hmin & Hmax & _).
  rewrite (wrap64_small u) by lia. apply wrap64_small. lia.
Qed.

Lemma pow10_65 : 2 ^ 64 < 10 ^ Z.of_nat 65.
Proof. reflexivity. Qed.

(** [ParseInt] reads back what [FormatInt] writes. *)
Lemma ParseInt_as_FormatInt (fn : string) (i : Z) :
  in_int64 i = true -> ParseInt_as fn (FormatInt i) = (i, None).
Proof.
  intros Hi. apply in_int64_spec in Hi.
  destruct int64_bounds as (Hmin & Hmax & Hu).
  pose proof pow10_65 as Hp. change (2 ^ 64) with 18446744073709551616 in Hp.
  unfold FormatInt. destruct (Z.ltb_spec i 0) as [Hneg|Hpos].
  - destruct (formatBits_head 64 (- i) "" ltac:(lia)) as (c & r & Hs & Hc).
    unfold ParseInt_as. cbn [Ascii.eqb Bool.eqb orb negb andb].
    change (Ascii.eqb "-" "-") with true. change (Ascii.eqb "-" "+") with false.
    cbn [orb negb andb]. rewrite Hs. unfold ParseUint. rewrite <- Hs.
    rewrite ParseUint_loop_formatBits by lia. cbn [ParseUint_loop].
    change (2 ^ 63) with 9223372036854775808.
    destruct (Z.ltb_spec 9223372036854775808 (- i)); [lia|].
    rewrite wrap64_neg_magnitude by (change (2 ^ 63) with 9223372036854775808; lia).
    f_equal. lia.
  - destruct (formatBits_head 64 i "" Hpos) as (c & r & Hs & Hc).
    destruct (is_digit_not_sign c Hc) as [Hm Hpl].
    unfold ParseInt_as. rewrite Hs, Hm, Hpl. cbn [orb negb andb].
    unfold ParseUint. rewrite <- Hs.
    rewrite ParseUint_loop_formatBits by lia. cbn [ParseUint_loop].
    change (2 ^ 63) with 9223372036854775808.
    destruct (Z.leb_spec 9223372036854775808 i); [lia|].
    rewrite wrap64_small by lia. reflexivity.
Qed.

(** [Atoi] reads back what [Itoa] writes, on its fast path and on the slow
    one. *)
Lemma Atoi_Itoa (i : Z) : in_int64 i = true -> Atoi (Itoa i) = (i, None).
Proof.
  intros Hi. unfold Atoi.
  destruct ((0 <? String.length (Itoa i))%nat && (String.length (Itoa i) <? 19)%nat);
    [|now apply ParseInt_as_FormatInt].
  apply in_int64_spec in Hi.
  destruct int64_bounds as (Hmin & Hmax & Hu).
  pose proof pow10_65 as Hp. change (2 ^ 64) with 18446744073709551616 in Hp.
  unfold Itoa, FormatInt. destruct (Z.ltb_spec i 0) as [Hneg|Hpos].
  - destruct (formatBits_head 64 (- i) "" ltac:(lia)) as (c & r & Hs & Hc).
    change (Ascii.eqb "-" "-") with true. cbn [orb andb].
    rewrite Hs at 1. cbn [String.length Nat.ltb Nat.leb].
    rewrite Atoi_loop_formatBits by lia. cbn [Atoi_loop]. f_equal. lia.
  - destruct (formatBits_head 64 i "" Hpos) as (c & r & Hs & Hc).
    destruct (is_digit_not_sign c Hc) as [Hm Hpl].
    rewrite Hs, Hm, Hpl. cbn [orb andb]. rewrite <- Hs.
    rewrite Atoi_loop_formatBits by lia. reflexivity.
Qed.

Lemma valid_Time_spec (t : Time) :
  valid_Time t = true <->
  (minInt64 <= unixSec t <= maxInt64) /\ 0 <= nsec t < 1000000000.
Proof.
  unfold valid_Time. rewrite !andb_true_iff, in_int64_spec, Z.leb_le, Z.ltb_lt. tauto.
Qed.

Lemma Time_UnixMicro_fits (t : Time) :
  valid_Time t = true -> fits_UnixMicro t = true ->
  Time_UnixMicro t = unixSec t * 1000000 + nsec t / 1000.
Proof.
  intros Hv Hf. apply valid_Time_spec in Hv. apply in_int64_spec in Hf.
  unfold Time_UnixMicro, add64, mul64. rewrite wrap64_add_l.
  rewrite Z.quot_div_nonneg by lia. now apply wrap64_small.
Qed.

Lemma time_UnixMicro_of_parts (s q : Z) :
  minInt64 <= s <= maxInt64 -> 0 <= q < 1000000 ->
  time_UnixMicro (s * 1000000 + q) = mkTime s (q * 1000).
Proof.
  destruct int64_bounds as (Hmin & Hmax & _). rewrite Hmin, Hmax. intros Hs Hq.
  unfold time_UnixMicro, time_Unix, add64, sub64, mul64.
  set (m := s * 1000000 + q).
  assert (Hcases : (Z.quot m 1000000 = s /\ Z.rem m 1000000 = q)
                   \/ (q > 0 /\ s < 0 /\ Z.quot m 1000000 = s + 1
                       /\ Z.rem m 1000000 = q - 1000000)).
  { subst m. Z.quot_rem_to_equations. lia. }
  destruct Hcases as [[-> ->] | (Hq0 & Hs0 & -> & ->)].
  - rewrite (wrap64_small (q * 1000)) by lia.
    destruct (Z.ltb_spec (q * 1000) 0); [lia|].
    destruct (Z.leb_spec 1000000000 (q * 1000)); [lia|]. reflexivity.
  - rewrite (wrap64_small ((q - 1000000) * 1000)) by lia.
    destruct (Z.ltb_spec ((q - 1000000) * 1000) 0); [|lia]. cbn [orb].
    assert (Hn : Z.quot ((q - 1000000) * 1000) 1000000000 = 0).
    { Z.quot_rem_to_equations. lia. }
    rewrite Hn. change (wrap64 (0 * 1000000000)) with 0.
    rewrite Z.add_0_r, Z.sub_0_r.
    rewrite (wrap64_small (s + 1)) by lia.
    rewrite (wrap64_small ((q - 1000000) * 1000)) by lia.
    destruct (Z.ltb_spec ((q - 1000000) * 1000) 0); [|lia].
    rewrite !wrap64_small by lia. f_equal; lia.
Qed.

(** ** Floats through strings

    The nearest [float64]. *)

Lemma round_half_even_unique (n den m : Z) :
  0 < den ->
  (2 * m - 1) * den <= 2 * n <= (2 * m + 1) * den ->
  (Z.even m = false -> (2 * m - 1) * den < 2 * n < (2 * m + 1) * den) ->
  round_half_even n den = m.
Proof.
  intros Hden Hb Hodd. unfold round_half_even.
  pose proof (Z.div_mod n den ltac:(lia)) as Hdm.
  pose proof (Z.mod_pos_bound n den Hden) as Hr.
  set (q := n / den) in *. set (r := n mod den) in *.
  assert (Hq : q = m - 1 \/ q = m) by nia.
  destruct (Z.ltb_spec (2 * r) den) as [H1|H1].
  - destruct Hq as [->| ->]; [nia | reflexivity].
  - destruct (Z.ltb_spec den (2 * r)) as [H2|H2].
    + destruct Hq as [->| ->]; [lia | nia].
    + assert (H3 : 2 * r = den) by lia.
      destruct (Z.even m) eqn:Hm.
      * destruct Hq as [->| ->].
        -- rewrite Z.even_sub, Hm. cbn. lia.
        -- now rewrite Hm.
      * specialize (Hodd eq_refl). destruct Hq as [->| ->]; nia.
Qed.

Lemma pow2_pos (a : Z) : 0 <= a -> 0 < 2 ^ a.
Proof. intros. apply Z.pow_pos_nonneg; lia. Qed.

(** The exponent [nearest_float64] works at. *)
Lemma log2_quotient (n den a : Z) :
  0 < den -> 0 <= a ->
  2 ^ a * den <= n < 2 ^ (a + 1) * den ->
  Z.log2 (n / den) = a.
Proof.
  intros Hden Ha [H1 H2]. apply Z.log2_unique; [exact Ha|]. split.
  - apply Z.div_le_lower_bound; lia.
  - apply Z.div_lt_upper_bound; lia.
Qed.

Lemma log2_quotient_small (n den : Z) :
  0 < den -> 0 <= n < 2 ^ 53 * den -> Z.max 0 (Z.log2 (n / den) - 52) = 0.
Proof.
  intros Hden [H1 H2].
  assert (Ht : 0 <= n / den < 2 ^ 53).
  { split; [apply Z.div_pos; lia | apply Z.div_lt_upper_bound; lia]. }
  destruct (Z.eq_dec (n / den) 0) as [->|Hne]; [reflexivity|].
  assert (Z.log2 (n / den) < 53) by (apply Z.log2_lt_pow2; lia).
  lia.
Qed.

Lemma nearest_float64_at (neg : bool) (num den m E : Z) :
  0 < den -> 0 < m < 2 ^ 53 -> 0 <= E <= 2045 ->
  (E = 0 \/ 2 ^ 52 * (den * 2 ^ E) <= num * 2 ^ 1074) ->
  num * 2 ^ 1074 < 2 ^ 53 * (den * 2 ^ E) ->
  round_half_even (num * 2 ^ 1074) (den * 2 ^ E) = m ->
  nearest_float64 neg num den = (S754_finite neg (Z.to_pos m) (E - 1074), false).
Proof.
  intros Hden Hm HE Hlo Hhi Hr. unfold nearest_float64.
  set (n := num * 2 ^ 1074) in *.
  assert (HpE : 0 < 2 ^ E) by (apply pow2_pos; lia).
  assert (Hn : 0 <= n).
  { destruct Hlo as [->|Hlo]; [|nia].
    destruct (Z.le_gt_cases 0 n) as [|Hneg]; [assumption|].
    exfalso. change (2 ^ 0) with 1 in Hr. rewrite Z.mul_1_r in Hr.
    unfold round_half_even in Hr.
    pose proof (Z.div_mod n den ltac:(lia)).
    pose proof (Z.mod_pos_bound n den Hden).
    assert (n / den < 0) by nia.
    destruct (2 * (n mod den) <? den); [lia|].
    destruct (den <? 2 * (n mod den)); [lia|].
    destruct (Z.even (n / den)); lia. }
  assert (Hs : Z.max 0 (Z.log2 (n / den) - 52) = E).
  { destruct Hlo as [->|Hlo].
    - change (2 ^ 0) with 1 in Hhi. apply log2_quotient_small; [assumption|lia].
    - rewrite (log2_quotient n den (52 + E)); [lia | assumption | lia |].
      rewrite Z.pow_add_r by lia.
      replace (52 + E + 1) with (53 + E) by lia. rewrite Z.pow_add_r by lia. lia. }
  rewrite Hs, Hr.
  destruct (Z.eqb_spec m (2 ^ 53)) as [Heq|_]; [lia|].
  destruct m as [|p|p]; try lia.
  destruct (Z.ltb_spec 971 (E - 1074)); [lia | reflexivity].
Qed.

Lemma nearest_float64_carry (neg : bool) (num den E : Z) :
  0 < den -> 0 <= E <= 2044 ->
  2 ^ 52 * (den * 2 ^ E) <= num * 2 ^ 1074 < 2 ^ 53 * (den * 2 ^ E) ->
  round_half_even (num * 2 ^ 1074) (den * 2 ^ E) = 2 ^ 53 ->
  nearest_float64 neg num den = (S754_finite neg (Z.to_pos (2 ^ 52)) (E + 1 - 1074), false).
Proof.
  intros Hden HE [Hlo Hhi] Hr. unfold nearest_float64.
  set (n := num * 2 ^ 1074) in *.
  assert (HpE : 0 < 2 ^ E) by (apply pow2_pos; lia).
  assert (Hs : Z.max 0 (Z.log2 (n / den) - 52) = E).
  { rewrite (log2_quotient n den (52 + E)); [lia | assumption | lia |].
    rewrite Z.pow_add_r by lia.
    replace (52 + E + 1) with (53 + E) by lia. rewrite Z.pow_add_r by lia. lia. }
  rewrite Hs, Hr. rewrite Z.eqb_refl.
  change (2 ^ 52) with 4503599627370496.
  destruct (Z.ltb_spec 971 (E + 1 - 1074)); [lia | reflexivity].
Qed.

Lemma between_weaken (strict : bool) (a b c : Z) :
  between strict a b c -> a <= b <= c.
Proof. destruct strict; cbn; lia. Qed.

(** A decimal between the bounds of a [float64] rounds to it. *)
Lemma nearest_float64_rounds_to (neg : bool) (m e num den : Z) :
  float64_finite m e -> 0 < den -> rounds_to m e num den ->
  nearest_float64 neg num den = (S754_finite neg (Z.to_pos m) e, false).
Proof.
  intros (Hm & He & Hnorm) Hden. unfold rounds_to, computeBounds.
  set (E := e + 1074).
  assert (HE : 0 <= E <= 2045) by (unfold E; lia).
  assert (HpE : 0 < 2 ^ E) by (apply pow2_pos; lia).
  assert (H1076 : num * 2 ^ 1076 = 4 * (num * 2 ^ 1074)).
  { change (2 ^ 1076) with (4 * 2 ^ 1074). lia. }
  rewrite H1076.
  replace e with (E - 1074) at 4 by (unfold E; lia).
  destruct (negb (m =? 2 ^ 52) || (e =? -1074)) eqn:Hcase.
  - (* the neighbours are equally far *)
    replace (e - 1 + 1076) with (E + 1) by (unfold E; lia).
    rewrite (Z.pow_add_r 2 E 1) by lia. change (2 ^ 1) with 2.
    set (n := num * 2 ^ 1074). set (D := den * 2 ^ E).
    assert (HD : 0 < D) by (unfold D; lia).
    intros Hb.
    assert (Hw := between_weaken _ _ _ _ Hb).
    assert (Hlo : E = 0 \/ 2 ^ 52 * D <= n).
    { destruct Hnorm as [->|Hn]; [now left|].
      destruct (Z.eqb_spec e (-1074)) as [->|Hne]; [now left|]. right.
      rewrite orb_false_r in Hcase. apply negb_true_iff in Hcase.
      apply Z.eqb_neq in Hcase. fold D in Hw. nia. }
    apply nearest_float64_at; try assumption; fold n; fold D.
    + fold D in Hw. nia.
    + apply round_half_even_unique; [assumption | fold D in Hw; lia |].
      intros Hodd. rewrite Hodd in Hb. cbn [negb between] in Hb. fold D in Hb. lia.
  - (* just above a power of two, where the neighbour below is nearer *)
    apply orb_false_iff in Hcase as [Hm52 He74].
    apply negb_false_iff in Hm52. apply Z.eqb_eq in Hm52. apply Z.eqb_neq in He74.
    replace (e - 2 + 1076) with E by (unfold E; lia).
    subst m. change (Z.even (2 ^ 52)) with true. cbn [negb between].
    set (n := num * 2 ^ 1074). set (D := den * 2 ^ E).
    assert (HD : 0 < D) by (unfold D; lia).
    intros [Hlo Hhi].
    destruct (Z.le_gt_cases (2 ^ 52 * D) n) as [Hge|Hlt].
    + apply nearest_float64_at; try assumption; fold n; fold D; try lia.
      apply round_half_even_unique; [assumption | lia | discriminate].
    + assert (HE1 : 1 <= E) by (unfold E; lia).
      set (E1 := E - 1).
      assert (HpE1 : 0 < 2 ^ E1) by (apply pow2_pos; unfold E1; lia).
      assert (HD2 : D = 2 * (den * 2 ^ E1)).
      { unfold D. replace E with (E1 + 1) by (unfold E1; lia).
        rewrite Z.pow_add_r by (unfold E1; lia). change (2 ^ 1) with 2. lia. }
      replace (E - 1074) with (E1 + 1 - 1074) by (unfold E1; lia).
      apply nearest_float64_carry; try assumption; fold n.
      * unfold E1; lia.
      * set (D1 := den * 2 ^ E1) in *. lia.
      * set (D1 := den * 2 ^ E1) in *.
        apply round_half_even_unique; [lia | lia | discriminate].
Qed.

(** What the bits of a [float64] give. *)

Lemma digits2_pos_spec (m : positive) :
  2 ^ (Zpos (digits2_pos m) - 1) <= Zpos m < 2 ^ Zpos (digits2_pos m).
Proof.
  induction m as [p IH|p IH|]; cbn [digits2_pos].
  - rewrite Pos2Z.inj_succ.
    replace (Z.succ (Zpos (digits2_pos p)) - 1) with (Zpos (digits2_pos p) - 1 + 1) by lia.
    rewrite Z.pow_succ_r by lia. rewrite Z.pow_add_r by lia.
    change (2 ^ 1) with 2. lia.
  - rewrite Pos2Z.inj_succ.
    replace (Z.succ (Zpos (digits2_pos p)) - 1) with (Zpos (digits2_pos p) - 1 + 1) by lia.
    rewrite Z.pow_succ_r by lia. rewrite Z.pow_add_r by lia.
    change (2 ^ 1) with 2. lia.
  - cbn. lia.
Qed.

Lemma valid_binary_finite (s : bool) (m : positive) (e : Z) :
  valid_binary (S754_finite s m e) = true -> float64_finite (Zpos m) e.
Proof.
  cbn [SpecFloat.valid_binary]. unfold bounded, canonical_mantissa, fexp, SpecFloat.emin.
  change prec with 53. change emax with 1024.
  intros H. apply andb_prop in H as [H1 H2].
  apply Z.eqb_eq in H1. apply Z.leb_le in H2.
  pose proof (digits2_pos_spec m) as [Hlo Hhi].
  set (dg := Zpos (digits2_pos m)) in *.
  assert (Hdg : 1 <= dg) by (unfold dg; lia).
  unfold float64_finite.
  assert (Hd53 : dg <= 53) by lia.
  assert (Hlt : Zpos m < 2 ^ 53).
  { eapply Z.lt_le_trans; [exact Hhi|]. apply Z.pow_le_mono_r; lia. }
  split; [lia|]. split; [lia|].
  destruct (Z.eq_dec e (-1074)) as [->|Hne]; [now left|]. right.
  assert (dg = 53) by lia.
  replace (2 ^ 52) with (2 ^ (dg - 1)) by (now replace (dg - 1) with 52 by lia).
  exact Hlo.
Qed.

(** The shortest decimal lies between the bounds. *)

Lemma between_rescale (strict : bool) (a b c A B C s1 s2 : Z) :
  0 < s1 -> 0 < s2 ->
  A * s1 = a * s2 -> B * s1 = b * s2 -> C * s1 = c * s2 ->
  between strict a b c -> between strict A B C.
Proof.
  intros H1 H2 HA HB HC. destruct strict; cbn; intros [Hab Hbc]; split.
  - apply (Z.mul_lt_mono_pos_r s1); [assumption|]. rewrite HA, HB.
    now apply Z.mul_lt_mono_pos_r.
  - apply (Z.mul_lt_mono_pos_r s1); [assumption|]. rewrite HB, HC.
    now apply Z.mul_lt_mono_pos_r.
  - apply (Z.mul_le_mono_pos_r _ _ s1); [assumption|]. rewrite HA, HB.
    apply Z.mul_le_mono_nonneg_r; lia.
  - apply (Z.mul_le_mono_pos_r _ _ s1); [assumption|]. rewrite HB, HC.
    apply Z.mul_le_mono_nonneg_r; lia.
Qed.

Lemma ryuTrim_spec (fuel : nat) :
  forall (l u p n dl du l' u' p' n' : Z),
    0 < p -> 0 <= n -> p = 10 ^ n -> dl <= l * p -> u * p <= du -> l <= u ->
    ryuTrim fuel l u p n = (l', u', p', n') ->
    0 <= n' /\ p' = 10 ^ n' /\ dl <= l' * p' /\ u' * p' <= du /\ l' <= u'.
Proof.
  induction fuel as [|fuel IH]; intros l u p n dl du l' u' p' n' Hp Hn Hpn Hl Hu Hlu;
    cbn [ryuTrim].
  - intros H; inversion H; subst. repeat split; assumption.
  - destruct (Z.leb_spec ((l + 9) / 10) (u / 10)) as [Hle|Hgt].
    + apply IH; try lia.
      * rewrite Z.pow_add_r by lia. change (10 ^ 1) with 10. lia.
      * pose proof (Z.div_mod (l + 9) 10 ltac:(lia)).
        pose proof (Z.mod_pos_bound (l + 9) 10 ltac:(lia)). nia.
      * pose proof (Z.div_mod u 10 ltac:(lia)).
        pose proof (Z.mod_pos_bound u 10 ltac:(lia)). nia.
    + intros H; inversion H; subst. repeat split; assumption.
Qed.

Lemma pow10_split (a : Z) : 0 <= a -> 10 ^ a = 2 ^ a * 5 ^ a.
Proof. intros. now rewrite <- Z.pow_mul_l. Qed.

Lemma pow_positive (b a : Z) : 0 < b -> 0 <= a -> 0 < b ^ a.
Proof. intros. apply Z.pow_pos_nonneg; lia. Qed.

(** A whole number of [10^q] between the bounds, cut down by [n] digits, is
    a decimal between the bounds. *)
Lemma rounds_to_scaled (m e c n : Z) :
  float64_finite m e ->
  0 <= n ->
  (let '(ml, _, mu, e2) := computeBounds m e in
   let f := if 0 <=? e2 then 2 ^ e2 else 5 ^ (- e2) in
   between (negb (Z.even m)) (ml * f) (c * 10 ^ n) (mu * f)) ->
  let k := Z.min (snd (computeBounds m e)) 0 + n in
  rounds_to m e (c * 10 ^ Z.max k 0) (10 ^ Z.max (- k) 0).
Proof.
  intros (Hm & He & Hnorm) Hn. unfold rounds_to.
  destruct (computeBounds m e) as [[[ml mc] mu] e2] eqn:Hcb. cbn [snd].
  assert (He2 : -1076 <= e2).
  { unfold computeBounds in Hcb.
    destruct (negb (m =? 2 ^ 52) || (e =? -1074)); inversion Hcb; lia. }
  cbv zeta. intros Hb.
  destruct (Z.leb_spec 0 e2) as [Hpos|Hneg].
  - rewrite Z.min_r by lia. rewrite Z.add_0_l.
    rewrite (Z.max_l n 0), (Z.max_r (- n) 0) by lia. change (10 ^ 0) with 1.
    eapply (between_rescale _ _ _ _ _ _ _ 1 (2 ^ 1076)); [lia | apply pow_positive; lia | | | | exact Hb];
      rewrite ?Z.pow_add_r by lia; generalize (2 ^ 1076); intros; ring.
  - rewrite Z.min_l by lia.
    set (a := - e2). assert (Ha : 0 < a <= 1076) by (unfold a; lia).
    replace e2 with (- a) in * by (unfold a; lia).
    replace (- - a) with a in Hb by lia.
    assert (H5 : 0 < 5 ^ a) by (apply pow_positive; lia).
    assert (H2a : 0 < 2 ^ a) by (apply pow_positive; lia).
    assert (H2r : 0 < 2 ^ (1076 - a)) by (apply pow_positive; lia).
    assert (H1076 : 2 ^ 1076 = 2 ^ (1076 - a) * 2 ^ a).
    { rewrite <- Z.pow_add_r by lia. f_equal. lia. }
    replace (- a + 1076) with (1076 - a) by lia.
    destruct (Z.le_gt_cases 0 (- a + n)) as [Hk|Hk].
    + rewrite (Z.max_l (- a + n) 0), (Z.max_r (- (- a + n)) 0) by lia.
      change (10 ^ 0) with 1.
      assert (Hn10 : 10 ^ n = 10 ^ (- a + n) * (2 ^ a * 5 ^ a)).
      { rewrite <- pow10_split by lia. rewrite <- Z.pow_add_r by lia. f_equal. lia. }
      rewrite Hn10 in Hb. rewrite H1076.
      eapply (between_rescale _ _ _ _ _ _ _ (5 ^ a) (2 ^ (1076 - a)));
        [assumption | assumption | | | | exact Hb]; ring.
    + rewrite (Z.max_r (- a + n) 0), (Z.max_l (- (- a + n)) 0) by lia.
      rewrite Z.pow_0_r, Z.mul_1_r.
      set (b := - (- a + n)). assert (Hb0 : 0 < b) by (unfold b; lia).
      assert (H10b : 0 < 10 ^ b) by (apply pow_positive; lia).
      assert (Hab : 10 ^ n * 10 ^ b = 2 ^ a * 5 ^ a).
      { rewrite <- pow10_split by lia. rewrite <- Z.pow_add_r by lia. f_equal.
        unfold b. lia. }
      rewrite H1076.
      eapply (between_rescale _ _ _ _ _ _ _ (5 ^ a) (2 ^ (1076 - a) * 10 ^ b));
        [assumption | lia | | | | exact Hb]; try ring.
      transitivity (c * 2 ^ (1076 - a) * (2 ^ a * 5 ^ a)); [ring|].
      rewrite <- Hab. ring.
Qed.

(** The digits of a number. *)

Lemma decimal_digits_spec (fuel : nat) :
  forall (u : Z) (acc : list Z),
    0 <= u < 10 ^ Z.of_nat fuel -> is_digits acc ->
    is_digits (decimal_digits fuel u acc)
    /\ digits_value (decimal_digits fuel u acc) 0 = digits_value acc u.
Proof.
  induction fuel as [|f IH]; intros u acc Hu Hacc.
  - change (10 ^ Z.of_nat 0) with 1 in Hu. assert (u = 0) as -> by lia.
    split; [exact Hacc | reflexivity].
  - rewrite pow10_succ in Hu. cbn [decimal_digits].
    destruct (Z.ltb_spec u 10) as [Hlt|Hge].
    + split; [constructor; [lia | exact Hacc] | reflexivity].
    + assert (Hdm := Z.div_mod u 10 ltac:(lia)).
      assert (Hmd := Z.mod_pos_bound u 10 ltac:(lia)).
      destruct (IH (u / 10) (u mod 10 :: acc)) as [H1 H2].
      * split; [apply Z.div_pos; lia | apply Z.div_lt_upper_bound; lia].
      * constructor; [lia | exact Hacc].
      * split; [exact H1|]. rewrite H2. cbn [digits_value]. f_equal. lia.
Qed.

Lemma decimal_digits_head (fuel : nat) :
  forall (u : Z) (acc : list Z),
    0 < u < 10 ^ Z.of_nat fuel ->
    exists d r, decimal_digits fuel u acc = d :: r /\ 1 <= d.
Proof.
  induction fuel as [|f IH]; intros u acc Hu.
  - change (10 ^ Z.of_nat 0) with 1 in Hu. lia.
  - rewrite pow10_succ in Hu. cbn [decimal_digits].
    destruct (Z.ltb_spec u 10) as [Hlt|Hge].
    + exists u, acc. split; [reflexivity | lia].
    + apply IH. split.
      * apply Z.div_str_pos; lia.
      * apply Z.div_lt_upper_bound; lia.
Qed.

Lemma below_pow10_log2 (c : Z) : 0 < c -> c < 10 ^ Z.of_nat (S (Z.to_nat (Z.log2 c))).
Proof.
  intros Hc. pose proof (Z.log2_spec c Hc) as [_ H].
  pose proof (Z.log2_nonneg c).
  rewrite Nat2Z.inj_succ, Z2Nat.id by assumption.
  eapply Z.lt_le_trans; [exact H|].
  apply Z.pow_le_mono_l. lia.
Qed.

Lemma digits_of_spec (c : Z) :
  0 < c ->
  is_digits (digits_of c) /\ digits_value (digits_of c) 0 = c
  /\ exists d r, digits_of c = d :: r /\ 1 <= d.
Proof.
  intros Hc. pose proof (below_pow10_log2 c Hc) as Hlt. unfold digits_of.
  destruct (decimal_digits_spec (S (Z.to_nat (Z.log2 c))) c nil) as [H1 H2];
    [lia | constructor |].
  split; [exact H1|]. split; [exact H2|].
  apply decimal_digits_head. lia.
Qed.

(** What [ryuFtoaShortest] returns: the digits of a number [c] and a
    decimal exponent [k], for a decimal [c * 10^k] between the bounds. *)
Lemma ryuFtoaShortest_rounds_to (m e : Z) :
  float64_finite m e ->
  exists c k,
    0 < c
    /\ ryuFtoaShortest m e
       = mkDecimal (digits_of c) (Z.of_nat (length (digits_of c)) + k)
    /\ rounds_to m e (c * 10 ^ Z.max k 0) (10 ^ Z.max (- k) 0).
Proof.
  intros Hfin. pose proof Hfin as (Hm & He & Hnorm).
  unfold ryuFtoaShortest.
  destruct (Z.eqb_spec m 0) as [?|_]; [lia|].
  pose proof (rounds_to_scaled m e) as Hscaled.
  destruct (computeBounds m e) as [[[ml mc] mu] e2] eqn:Hcb. cbn [snd] in Hscaled.
  assert (Hml : 1 <= ml /\ ml + 2 <= mu).
  { unfold computeBounds in Hcb.
    destruct (negb (m =? 2 ^ 52) || (e =? -1074)); inversion Hcb; lia. }
  set (f := if 0 <=? e2 then 2 ^ e2 else 5 ^ (- e2)) in *.
  assert (Hf : 1 <= f).
  { unfold f. destruct (Z.leb_spec 0 e2).
    - assert (0 < 2 ^ e2) by (apply pow_positive; lia). lia.
    - assert (0 < 5 ^ (- e2)) by (apply pow_positive; lia). lia. }
  set (dl := if Z.even m then ml * f else ml * f + 1).
  set (du := if Z.even m then mu * f else mu * f - 1).
  assert (Hdl : 1 <= dl <= du).
  { unfold dl, du. destruct (Z.even m); nia. }
  destruct (ryuTrim (S (Z.to_nat (Z.log2 du))) dl du 1 0) as [[[l u] p] n] eqn:Htrim.
  destruct (ryuTrim_spec _ dl du 1 0 dl du l u p n ltac:(lia) ltac:(lia) eq_refl
              ltac:(lia) ltac:(lia) ltac:(lia) Htrim) as (Hn & Hp & Hl & Hu & Hlu).
  assert (Hp0 : 0 < p) by (subst p; apply pow_positive; lia).
  set (c := Z.max l (Z.min u (round_half_even (mc * f) p))).
  assert (Hc : l <= c <= u) by (unfold c; lia).
  assert (Hcp : dl <= c * p <= du) by nia.
  assert (Hc0 : 0 < c) by nia.
  exists c, (Z.min e2 0 + n). split; [exact Hc0|]. split.
  - f_equal. lia.
  - apply Hscaled; [exact Hfin | exact Hn |]. rewrite <- Hp.
    unfold dl, du in Hcp. destruct (Z.even m); cbn [negb between]; lia.
Qed.

(** Reading the text of a decimal. *)

Lemma digit_char_facts (d : Z) :
  0 <= d < 10 ->
  is_digit (digit_char d) = true
  /\ digit_val (digit_char d) = d
  /\ Ascii.eqb (digit_char d) "_" = false
  /\ Ascii.eqb (digit_char d) "." = false
  /\ Ascii.eqb (digit_char d) "+" = false
  /\ Ascii.eqb (digit_char d) "-" = false
  /\ Ascii.eqb (digit_char d) "0" = (d =? 0)
  /\ lower (digit_char d) = digit_char d.
Proof.
  intros H. destruct (digit_cases d H) as [->|[->|[->|[->|[->|[->|[->|[->|[->| ->]]]]]]]]];
    repeat split; reflexivity.
Qed.

Lemma append_String (x : ascii) (a b : string) : String x a +:+ b = String x (a +:+ b).
Proof. reflexivity. Qed.

Lemma append_empty_l (a : string) : "" +:+ a = a.
Proof. reflexivity. Qed.

Lemma digits_string_app (a b : list Z) :
  digits_string (a ++ b) = digits_string a +:+ digits_string b.
Proof.
  induction a as [|d a IH]; [reflexivity|].
  cbn [app digits_string]. now rewrite append_String, IH.
Qed.

Lemma append_assoc (a b c : string) : (a +:+ b) +:+ c = a +:+ (b +:+ c).
Proof. induction a as [|x a IH]; [reflexivity|]. now rewrite !append_String, IH. Qed.

Lemma append_empty_r (a : string) : a +:+ "" = a.
Proof. induction a as [|x a IH]; [reflexivity|]. now rewrite append_String, IH. Qed.

Lemma digits_value_app (a b : list Z) (acc : Z) :
  digits_value (a ++ b) acc = digits_value b (digits_value a acc).
Proof. revert acc. induction a as [|d a IH]; intros acc; [reflexivity|]. cbn. apply IH. Qed.

Lemma digits_value_zeros (n : nat) (acc : Z) :
  digits_value (replicate n 0) acc = acc * 10 ^ Z.of_nat n.
Proof.
  revert acc. induction n as [|n IH]; intros acc.
  - cbn. lia.
  - cbn [replicate digits_value]. rewrite IH, pow10_succ. lia.
Qed.

Lemma digits_value_pos (ds : list Z) (acc : Z) :
  is_digits ds -> 0 < acc -> 0 < digits_value ds acc.
Proof.
  intros H. revert acc. induction H as [|d r Hd _ IH]; intros acc Hacc; [exact Hacc|].
  cbn. apply IH. lia.
Qed.

(** Digits after a digit that counts. *)
Lemma readMantissa_digits (ds : list Z) :
  forall (rest : string) (mantissa nd dp : Z) (sawdot underscores : bool),
    is_digits ds -> 0 < nd ->
    readMantissa 10 (digits_string ds +:+ rest)
                 (mkMantissa mantissa nd dp sawdot true underscores)
    = readMantissa 10 rest
        (mkMantissa (digits_value ds mantissa) (nd + Z.of_nat (length ds)) dp sawdot true
                    underscores).
Proof.
  induction ds as [|d r IH]; intros rest mantissa nd dp sawdot underscores Hds Hnd.
  - cbn. now rewrite Z.add_0_r.
  - apply Forall_cons in Hds as [Hd Hr].
    destruct (digit_char_facts d Hd) as (H1 & H2 & H3 & H4 & _ & _ & _ & _).
    cbn [digits_string]. rewrite append_String. cbn [readMantissa].
    rewrite H3, H4, H1, H2.
    destruct (Z.eqb_spec nd 0) as [?|_]; [lia|]. rewrite andb_false_r.
    rewrite IH by (assumption || lia). f_equal. f_equal.
    cbn [length]. lia.
Qed.

(** The digits of a number, read from the start of the digits that count. *)
Lemma readMantissa_number (c : Z) (rest : string) (dp : Z) (sawdot sawdigits : bool) :
  0 < c ->
  readMantissa 10 (digits_string (digits_of c) +:+ rest)
               (mkMantissa 0 0 dp sawdot sawdigits false)
  = readMantissa 10 rest
      (mkMantissa c (Z.of_nat (length (digits_of c))) dp sawdot true false).
Proof.
  intros Hc. destruct (digits_of_spec c Hc) as (Hds & Hv & d & r & Heq & Hd).
  rewrite Heq in *. apply Forall_cons in Hds as [Hd10 Hr].
  destruct (digit_char_facts d Hd10) as (H1 & H2 & H3 & H4 & _ & _ & H5 & _).
  cbn [digits_string]. rewrite append_String. cbn [readMantissa].
  rewrite H3, H4, H1, H2, H5.
  destruct (Z.eqb_spec d 0) as [?|_]; [lia|]. cbn [andb].
  rewrite readMantissa_digits by (assumption || lia).
  cbn [digits_value] in Hv. rewrite Hv. f_equal. f_equal. cbn [length]. lia.
Qed.

(** Zeros in front of the digits that count move the point. *)
Lemma readMantissa_zeros (n : nat) :
  forall (rest : string) (dp : Z) (sawdot : bool),
    readMantissa 10 (digits_string (replicate n 0) +:+ rest)
                 (mkMantissa 0 0 dp sawdot true false)
    = readMantissa 10 rest (mkMantissa 0 0 (dp - Z.of_nat n) sawdot true false).
Proof.
  induction n as [|n IH]; intros rest dp sawdot.
  - cbn. now rewrite Z.sub_0_r.
  - cbn [replicate digits_string]. rewrite append_String.
    change (digit_char 0) with "0"%char. cbn [readMantissa].
    change (Ascii.eqb "0" "_") with false. change (Ascii.eqb "0" ".") with false.
    change (is_digit "0") with true. change (Ascii.eqb "0" "0") with true.
    cbn [andb Z.eqb]. rewrite IH. f_equal. f_equal. lia.
Qed.

(** The text [fmtF] writes. *)

Lemma digit_at_lookup (ds : list Z) (dp j : Z) :
  0 <= j ->
  digit_at (mkDecimal ds dp) j = default 0 (ds !! Z.to_nat j).
Proof.
  intros Hj. unfold digit_at, dec_nd. cbn [dec_d].
  destruct (Z.leb_spec 0 j) as [_|?]; [|lia]. cbn [andb].
  destruct (Z.ltb_spec j (Z.of_nat (length ds))) as [Hlt|Hge].
  - apply nth_lookup.
  - rewrite lookup_ge_None_2 by lia. reflexivity.
Qed.

(** The digits after the point, when the point stands among the digits. *)
Lemma fraction_digits_drop (ds : list Z) (dp : Z) :
  0 < dp <= Z.of_nat (length ds) ->
  map (fun i => digit_at (mkDecimal ds dp) (dp + Z.of_nat i))
      (seq 0 (Z.to_nat (Z.of_nat (length ds) - dp)))
  = drop (Z.to_nat dp) ds.
Proof.
  intros Hdp. apply list_eq. intros i.
  change (map ?f ?l) with (f <$> l).
  rewrite list_lookup_fmap, lookup_drop.
  destruct (decide (i < Z.to_nat (Z.of_nat (length ds) - dp))%nat) as [Hi|Hi].
  - rewrite lookup_seq_lt by exact Hi. cbn [fmap option_fmap option_map Nat.add].
    rewrite digit_at_lookup by lia.
    replace (Z.to_nat (dp + Z.of_nat i)) with (Z.to_nat dp + i)%nat by lia.
    destruct (ds !! (Z.to_nat dp + i)%nat) as [x|] eqn:Hx; [reflexivity|].
    apply lookup_ge_None in Hx. lia.
  - rewrite lookup_seq_ge by lia. cbn. symmetry. apply lookup_ge_None. lia.
Qed.

(** The digits after the point, when the point stands in front of the
    digits. *)
Lemma fraction_digits_zeros (ds : list Z) (dp : Z) :
  dp <= 0 ->
  map (fun i => digit_at (mkDecimal ds dp) (dp + Z.of_nat i))
      (seq 0 (Z.to_nat (Z.of_nat (length ds) - dp)))
  = (replicate (Z.to_nat (- dp)) 0 ++ ds)%list.
Proof.
  intros Hdp. apply list_eq. intros i.
  change (map ?f ?l) with (f <$> l).
  rewrite list_lookup_fmap.
  destruct (decide (i < Z.to_nat (- dp))%nat) as [Hz|Hz].
  - rewrite lookup_seq_lt by lia. cbn [fmap option_fmap option_map Nat.add].
    rewrite lookup_app_l by (rewrite length_replicate; lia).
    rewrite lookup_replicate_2 by exact Hz.
    unfold digit_at. destruct (Z.leb_spec 0 (dp + Z.of_nat i)); [lia | reflexivity].
  - rewrite lookup_app_r by (rewrite length_replicate; lia).
    rewrite length_replicate.
    destruct (decide (i < Z.to_nat (Z.of_nat (length ds) - dp))%nat) as [Hi|Hi].
    + rewrite lookup_seq_lt by exact Hi. cbn [fmap option_fmap option_map Nat.add].
      rewrite digit_at_lookup by lia.
      replace (Z.to_nat (dp + Z.of_nat i)) with (i - Z.to_nat (- dp))%nat by lia.
      destruct (ds !! (i - Z.to_nat (- dp))%nat) as [x|] eqn:Hx; [reflexivity|].
      apply lookup_ge_None in Hx. lia.
    + rewrite lookup_seq_ge by lia. cbn. symmetry. apply lookup_ge_None. lia.
Qed.

Lemma fmtF_decimal_text (neg : bool) (c k : Z) :
  0 < c ->
  let d := mkDecimal (digits_of c) (Z.of_nat (length (digits_of c)) + k) in
  fmtF neg d (Z.max (dec_nd d - dec_dp d) 0)
  = (if neg then "-" else "") +:+ decimal_text c k.
Proof.
  intros Hc d. unfold fmtF, decimal_text, dec_nd. subst d. cbn [dec_d dec_dp].
  destruct (digits_of_spec c Hc) as (_ & _ & d0 & r0 & Heq & _).
  set (ds := digits_of c) in *.
  assert (Hnd : 1 <= Z.of_nat (length ds)) by (rewrite Heq; cbn [length]; lia).
  set (nd := Z.of_nat (length ds)) in *.
  f_equal.
  destruct (Z.leb_spec 0 k) as [Hk|Hk].
  - destruct (Z.ltb_spec 0 (nd + k)) as [_|?]; [|lia].
    rewrite Z.min_l by lia.
    replace (Z.max (nd - (nd + k)) 0) with 0 by lia. cbn [Z.ltb Z.compare].
    rewrite append_empty_r.
    rewrite take_ge by (unfold nd; lia).
    now replace (nd + k - nd) with k by lia.
  - replace (Z.max (nd - (nd + k)) 0) with (nd - (nd + k)) by lia.
    destruct (Z.ltb_spec 0 (nd - (nd + k))) as [_|?]; [|lia].
    destruct (Z.ltb_spec (- k) nd) as [Hin|Hout].
    + destruct (Z.ltb_spec 0 (nd + k)) as [_|?]; [|lia].
      rewrite Z.min_r by lia. rewrite Z.sub_diag. cbn [Z.to_nat replicate digits_string].
      rewrite append_empty_r. f_equal. f_equal. f_equal.
      apply fraction_digits_drop. unfold nd in *. lia.
    + destruct (Z.ltb_spec 0 (nd + k)) as [?|_]; [lia|].
      rewrite append_String, append_empty_l. f_equal. f_equal.
      rewrite <- digits_string_app. f_equal.
      unfold nd. rewrite fraction_digits_zeros by (unfold nd in *; lia).
      f_equal. f_equal. unfold nd. lia.
Qed.

(** Digits that start with a digit other than 0, read from the start of
    the digits that count. *)
Lemma readMantissa_leading (d : Z) (r : list Z) (rest : string) (dp : Z)
      (sawdot sawdigits : bool) :
  is_digits (d :: r) -> 1 <= d ->
  readMantissa 10 (digits_string (d :: r) +:+ rest)
               (mkMantissa 0 0 dp sawdot sawdigits false)
  = readMantissa 10 rest
      (mkMantissa (digits_value (d :: r) 0) (Z.of_nat (length (d :: r))) dp sawdot true false).
Proof.
  intros Hds Hd. apply Forall_cons in Hds as [Hd10 Hr].
  destruct (digit_char_facts d Hd10) as (H1 & H2 & H3 & H4 & _ & _ & H5 & _).
  cbn [digits_string]. rewrite append_String. cbn [readMantissa].
  rewrite H3, H4, H1, H2, H5.
  destruct (Z.eqb_spec d 0) as [?|_]; [lia|]. cbn [andb].
  rewrite readMantissa_digits by (assumption || lia).
  cbn [digits_value]. f_equal. f_equal. cbn [length]. lia.
Qed.

Lemma readMantissa_dot (rest : string) (mantissa nd dp : Z) (sawdigits underscores : bool) :
  readMantissa 10 (String "." rest) (mkMantissa mantissa nd dp false sawdigits underscores)
  = readMantissa 10 rest (mkMantissa mantissa nd nd true sawdigits underscores).
Proof. reflexivity. Qed.

Lemma readMantissa_zero (rest : string) (dp : Z) (sawdot sawdigits : bool) :
  readMantissa 10 (String "0" rest) (mkMantissa 0 0 dp sawdot sawdigits false)
  = readMantissa 10 rest (mkMantissa 0 0 (dp - 1) sawdot true false).
Proof. reflexivity. Qed.

(** What [readFloat] reads in the text of [c * 10^k]: all of it. *)
Lemma readMantissa_decimal_text (c k : Z) :
  0 < c ->
  let nd := Z.of_nat (length (digits_of c)) in
  readMantissa 10 (decimal_text c k) (mkMantissa 0 0 0 false false false)
  = (if 0 <=? k
     then mkMantissa (c * 10 ^ k) (nd + k) 0 false true false
     else mkMantissa c nd (nd + k) true true false,
     "").
Proof.
  intros Hc nd. unfold decimal_text. fold nd.
  destruct (digits_of_spec c Hc) as (Hds & Hv & d & r & Heq & Hd).
  set (ds := digits_of c) in *.
  assert (Hnd : 1 <= nd) by (unfold nd; rewrite Heq; cbn [length]; lia).
  destruct (Z.leb_spec 0 k) as [Hk|Hk].
  - rewrite Heq, readMantissa_leading by first [rewrite <- Heq; assumption | assumption].
    rewrite <- Heq, Hv. fold nd.
    rewrite <- (append_empty_r (digits_string (replicate (Z.to_nat k) 0))).
    rewrite readMantissa_digits; [| apply Forall_replicate; lia | lia].
    rewrite digits_value_zeros, length_replicate, Z2Nat.id by lia. reflexivity.
  - destruct (Z.ltb_spec (- k) nd) as [Hin|Hout].
    + assert (Htake : take (Z.to_nat (nd + k)) ds = d :: take (Z.to_nat (nd + k) - 1) r).
      { rewrite Heq. replace (Z.to_nat (nd + k)) with (S (Z.to_nat (nd + k) - 1)) at 1 by lia.
        reflexivity. }
      assert (Hsplit : (take (Z.to_nat (nd + k)) ds ++ drop (Z.to_nat (nd + k)) ds)%list = ds)
        by apply take_drop.
      assert (Htd : is_digits (take (Z.to_nat (nd + k)) ds)
                    /\ is_digits (drop (Z.to_nat (nd + k)) ds)).
      { apply Forall_app. now rewrite Hsplit. }
      destruct Htd as [Ht Hdr].
      rewrite Htake, readMantissa_leading by first [rewrite <- Htake; assumption | assumption].
      rewrite <- Htake, readMantissa_dot.
      rewrite <- (append_empty_r (digits_string (drop _ ds))).
      rewrite readMantissa_digits; [| assumption | rewrite Htake; cbn [length]; lia].
      rewrite <- digits_value_app, Hsplit, Hv.
      rewrite length_take, length_drop. cbn [readMantissa]. f_equal. f_equal; unfold nd; lia.
    + rewrite readMantissa_zero, readMantissa_dot, readMantissa_zeros.
      rewrite <- (append_empty_r (digits_string ds)).
      rewrite Heq, readMantissa_leading by first [rewrite <- Heq; assumption | assumption].
      rewrite <- Heq, Hv. cbn [readMantissa]. f_equal. f_equal. unfold nd in *. lia.
Qed.

(** The text of a decimal starts with a digit, and with no prefix "0x". *)
Lemma decimal_text_head (c k : Z) :
  0 < c ->
  exists d r, decimal_text c k = String (digit_char d) r /\ 0 <= d < 10
              /\ hexPrefix (decimal_text c k) = (false, decimal_text c k).
Proof.
  intros Hc. unfold decimal_text.
  destruct (digits_of_spec c Hc) as (Hds & _ & d & r & Heq & Hd).
  set (ds := digits_of c) in *.
  assert (Hd10 : 0 <= d < 10) by (rewrite Heq in Hds; apply Forall_cons in Hds; tauto).
  assert (Hne0 : Ascii.eqb (digit_char d) "0" = false).
  { destruct (digit_char_facts d Hd10) as (_ & _ & _ & _ & _ & _ & -> & _).
    apply Z.eqb_neq. lia. }
  assert (Hhex : forall x, hexPrefix (String (digit_char d) x) = (false, String (digit_char d) x)).
  { intros x. unfold hexPrefix. rewrite Hne0. now destruct x as [|? [|? ?]]. }
  destruct (Z.leb_spec 0 k).
  - rewrite Heq. cbn [digits_string]. rewrite append_String.
    eexists _, _. split; [reflexivity|]. split; [exact Hd10 | apply Hhex].
  - destruct (Z.ltb_spec (- k) (Z.of_nat (length ds))).
    + rewrite Heq.
      replace (Z.to_nat (Z.of_nat (length (d :: r)) + k))
        with (S (Z.to_nat (Z.of_nat (length (d :: r)) + k) - 1))
        by (rewrite Heq in *; cbn [length] in *; lia).
      cbn [take digits_string]. rewrite append_String.
      eexists _, _. split; [reflexivity|]. split; [exact Hd10 | apply Hhex].
    + exists 0, (String "." (digits_string (replicate (Z.to_nat (- k - Z.of_nat (length ds))) 0)
                               +:+ digits_string ds)).
      split; [reflexivity|]. split; [lia|].
      unfold hexPrefix.
      now destruct (digits_string (replicate (Z.to_nat (- k - Z.of_nat (length ds))) 0)
                    +:+ digits_string ds).
Qed.

Lemma readFloat_decimal_text (neg : bool) (c k : Z) :
  0 < c ->
  readFloat ((if neg then "-" else "") +:+ decimal_text c k)
  = Some (if 0 <=? k then c * 10 ^ k else c, if 0 <=? k then 0 else k, neg, false, "").
Proof.
  intros Hc.
  destruct (decimal_text_head c k Hc) as (d & r & Hhead & Hd & Hhex).
  destruct (digit_char_facts d Hd) as (_ & _ & _ & _ & Hplus & Hminus & _ & _).
  pose proof (readMantissa_decimal_text c k Hc) as Hread. cbv zeta in Hread.
  assert (Hnd : 1 <= Z.of_nat (length (digits_of c))).
  { destruct (digits_of_spec c Hc) as (_ & _ & d0 & r0 & -> & _). cbn [length]. lia. }
  assert (Hbody : forall s,
             hexPrefix (decimal_text c k) = (false, decimal_text c k) ->
             (let '(hex, digits) := hexPrefix (decimal_text c k) in
              let '(mkMantissa mantissa nd dp sawdot sawdigits underscores, rest) :=
                readMantissa (if hex then 16 else 10) digits
                             (mkMantissa 0 0 0 false false false) in
              if negb sawdigits then None
              else
                let dp := if sawdot then dp else nd in
                let dp := if hex then dp * 4 else dp in
                let ndMant := if hex then nd * 4 else nd in
                match readExponentPart hex rest dp underscores with
                | None => None
                | Some (dp, underscores, rest) =>
                    let exp := if mantissa =? 0 then 0 else dp - ndMant in
                    if underscores && negb (underscoreOK (read_prefix s rest)) then None
                    else Some (mantissa, exp, neg, hex, rest)
                end)
             = Some (if 0 <=? k then c * 10 ^ k else c, if 0 <=? k then 0 else k,
                     neg, false, "")).
  { intros s ->. rewrite Hread.
    destruct (Z.leb_spec 0 k) as [Hk|Hk]; cbn [negb readExponentPart andb].
    - assert (0 < c * 10 ^ k) by (assert (0 < 10 ^ k) by (apply pow_positive; lia); nia).
      destruct (Z.eqb_spec (c * 10 ^ k) 0); [lia|]. now rewrite Z.sub_diag.
    - destruct (Z.eqb_spec c 0); [lia|]. repeat f_equal. lia. }
  destruct neg.
  - rewrite append_String, append_empty_l. unfold readFloat.
    change (Ascii.eqb "-" "-") with true. rewrite orb_true_r.
    apply Hbody, Hhex.
  - rewrite append_empty_l. rewrite Hhead at 1. unfold readFloat.
    rewrite Hplus, Hminus. cbn [orb]. rewrite <- Hhead.
    apply Hbody, Hhex.
Qed.

Lemma special_decimal_text (neg : bool) (c k : Z) :
  0 < c -> special ((if neg then "-" else "") +:+ decimal_text c k) = None.
Proof.
  intros Hc. destruct (decimal_text_head c k Hc) as (d & r & -> & Hd & _).
  assert (Hcs : forall x : ascii,
             (97 <= nat_of_ascii x)%nat -> Ascii.eqb (digit_char d) x = false
                                           /\ Ascii.eqb (lower_ascii (digit_char d)) x = false).
  { intros x Hx.
    destruct (digit_cases d Hd) as [->|[->|[->|[->|[->|[->|[->|[->|[->| ->]]]]]]]]];
      (split; apply Ascii.eqb_neq; intros <-; vm_compute in Hx; lia). }
  assert (HcS : forall x : ascii,
             (65 <= nat_of_ascii x)%nat -> Ascii.eqb (digit_char d) x = false).
  { intros x Hx.
    destruct (digit_cases d Hd) as [->|[->|[->|[->|[->|[->|[->|[->|[->| ->]]]]]]]]];
      (apply Ascii.eqb_neq; intros <-; vm_compute in Hx; lia). }
  destruct (digit_char_facts d Hd) as (_ & _ & _ & _ & Hplus & Hminus & _ & _).
  destruct neg.
  - rewrite append_String, append_empty_l. unfold special.
    change (Ascii.eqb "-" "+") with false. change (Ascii.eqb "-" "-") with true.
    cbn [commonPrefixLenIgnoreCase]. rewrite (proj2 (Hcs "i"%char ltac:(vm_compute; lia))).
    reflexivity.
  - rewrite append_empty_l. unfold special. rewrite Hplus, Hminus.
    rewrite (HcS "i"%char), (HcS "I"%char), (HcS "n"%char), (HcS "N"%char) by (vm_compute; lia).
    reflexivity.
Qed.

(** The text of a [float64] reads back as it. *)

Lemma float64_of_text_decimal (neg : bool) (c k : Z) :
  float64_of_text (if 0 <=? k then c * 10 ^ k else c) (if 0 <=? k then 0 else k) neg false
  = nearest_float64 neg (c * 10 ^ Z.max k 0) (10 ^ Z.max (- k) 0).
Proof.
  unfold float64_of_text. destruct (Z.leb_spec 0 k) as [Hk|Hk].
  - rewrite (Z.max_l k 0), (Z.max_r (- k) 0) by lia.
    change (Z.max 0 0) with 0. change (Z.max (- 0) 0) with 0.
    change (10 ^ 0) with 1. now rewrite Z.mul_1_r.
  - now rewrite (Z.max_r k 0), (Z.max_l (- k) 0) by lia.
Qed.

Theorem ParseFloat_FormatFloat (v : float) :
  strconv_ParseFloat (strconv_FormatFloat v) = (v, None).
Proof.
  pose proof (Prim2SF_valid v) as Hvalid.
  rewrite <- (SF2Prim_Prim2SF v) at 2.
  unfold strconv_FormatFloat.
  destruct (Prim2SF v) as [s|s| |s m e].
  - now destruct s.
  - now destruct s.
  - reflexivity.
  - apply valid_binary_finite in Hvalid.
    destruct (ryuFtoaShortest_rounds_to (Zpos m) e Hvalid) as (c & k & Hc & -> & Hr).
    cbv zeta. rewrite (fmtF_decimal_text s c k Hc).
    unfold strconv_ParseFloat.
    rewrite (special_decimal_text s c k Hc), (readFloat_decimal_text s c k Hc).
    rewrite float64_of_text_decimal.
    rewrite (nearest_float64_rounds_to s (Zpos m) e _ _ Hvalid); [reflexivity | | exact Hr].
    apply pow_positive; lia.
Qed.

Section RoundTrip.
Context (F : strconv_float).

(** Run [round_trip] down to the call of [strconv] it makes. *)
Ltac run_round_trip :=
  unfold round_trip; cbn [ScalarString mbind outcome_bind];
  unfold ScalarFromString; cbn [Scalar negb].

Lemma round_trip_Timestamp (t : Time) :
  valid_Time t = true -> fits_UnixMicro t = true ->
  round_trip F (VTime t) PrimitiveTypeTimestamp
  = Returns (VTime (Truncate_Microsecond t), None).
Proof.
  intros Hv Hf. run_round_trip. unfold ParseInt. rewrite Time_UnixMicro_fits by assumption.
  rewrite ParseInt_as_FormatInt by exact Hf.
  apply valid_Time_spec in Hv.
  rewrite time_UnixMicro_of_parts; [reflexivity | tauto |].
  split; [apply Z.div_pos; lia | apply Z.div_lt_upper_bound; lia].
Qed.

Lemma Truncate_Microsecond_whole (t : Time) :
  nsec t mod 1000 = 0 -> Truncate_Microsecond t = t.
Proof.
  intros H. destruct t as [s n]. unfold Truncate_Microsecond. cbn [unixSec nsec] in *.
  f_equal. pose proof (Z.div_mod n 1000). lia.
Qed.

(** ** The round trip law *)

Lemma round_trip_Boolean (b : bool) :
  round_trip F (Vbool b) PrimitiveTypeBoolean = Returns (Vbool b, None).
Proof. now destruct b. Qed.

Lemma round_trip_Integer (i : Z) :
  in_int64 i = true ->
  round_trip F (Vint i) PrimitiveTypeInteger = Returns (Vint i, None).
Proof.
  intros Hi. run_round_trip. now rewrite Atoi_Itoa.
Qed.

(** A value that [TypeDetect] gives the tag [t] and whose Go type is not
    that of [t]'s zero value is no case of [ScalarString]'s switch. *)
Lemma round_trip_panics (t : PrimitiveType) (v : any) :
  scalar_tag t = true -> TypeDetect v = Returns t ->
  reflect_TypeOf v <> reflect_TypeOf (Interface_scalar t) ->
  round_trip F v t = Panics "unreachable".
Proof.
  intros Ht Hd Hne.
  destruct v; try reflexivity; cbn in Hd; inversion Hd; subst t; now destruct Hne.
Qed.

End RoundTrip.

Lemma round_trip_Float (f : float) :
  round_trip strconv (Vfloat64 f) PrimitiveTypeFloat = Returns (Vfloat64 f, None).
Proof.
  unfold round_trip. cbn [ScalarString mbind outcome_bind].
  unfold ScalarFromString. cbn [Scalar negb FormatFloat ParseFloat strconv].
  now rewrite ParseFloat_FormatFloat.
Qed.

(** C1, as stated, fails, at three values. The instant 9223372036855
    seconds after the Unix epoch is a [time.Time] whose time in
    microseconds is no [int64]: [UnixMicro] wraps, and the instant that
    comes back lies 9223372036855 seconds before the epoch. The [int32] 7 is
    a value that [TypeDetect] gives the tag Integer, and [ScalarString]
    panics on it. NaN comes back as NaN, which Go's [==] on [float64] does
    not find equal to NaN. *)
Lemma C1_round_trip_fails :
  let t := mkTime 9223372036855 0 in
  valid_Time t = true
  /\ (forall F, round_trip F (VTime t) PrimitiveTypeTimestamp
                = Returns (VTime (mkTime (-9223372036855) 448384000), None))
  /\ VTime (mkTime (-9223372036855) 448384000) <> VTime t
  /\ TypeDetect (Vint32 7) = Returns PrimitiveTypeInteger
  /\ (forall F, round_trip F (Vint32 7) PrimitiveTypeInteger = Panics "unreachable")
  /\ round_trip strconv (Vfloat64 nan) PrimitiveTypeFloat = Returns (Vfloat64 nan, None)
  /\ (nan =? nan)%float = false.
Proof.
  cbv zeta. split; [reflexivity|]. split; [|split; [discriminate|]].
  - intros F. vm_compute. reflexivity.
  - repeat split; reflexivity.
Qed.

(** C1, amended: [ScalarFromString (ScalarString v) t] returns [v] and a nil
    error for every value [v] of the Go type of [t]'s zero value: every
    [string], every [int], every [float64] (with Go's [strconv]), every
    [bool], and every [time.Time] whose Unix time in microseconds is an
    [int64] and which has no part below the microsecond; a [time.Time] with
    such a part comes back cut to whole microseconds. On a value that
    [TypeDetect] gives the tag [t] and that has another Go type, an [int32]
    or a [float32], it panics with "unreachable". *)
Theorem C1_round_trip :
  (forall F s, round_trip F (Vstring s) PrimitiveTypeString = Returns (Vstring s, None))
  /\ (forall F i, in_int64 i = true ->
                  round_trip F (Vint i) PrimitiveTypeInteger = Returns (Vint i, None))
  /\ (forall f, round_trip strconv (Vfloat64 f) PrimitiveTypeFloat
                = Returns (Vfloat64 f, None))
  /\ (forall F b, round_trip F (Vbool b) PrimitiveTypeBoolean = Returns (Vbool b, None))
  /\ (forall F t, valid_Time t = true -> fits_UnixMicro t = true ->
                  round_trip F (VTime t) PrimitiveTypeTimestamp
                  = Returns (VTime (Truncate_Microsecond t), None))
  /\ (forall F t, valid_Time t = true -> fits_UnixMicro t = true ->
                  nsec t mod 1000 = 0 ->
                  round_trip F (VTime t) PrimitiveTypeTimestamp = Returns (VTime t, None))
  /\ (forall F t v, scalar_tag t = true -> TypeDetect v = Returns t ->
                    reflect_TypeOf v <> reflect_TypeOf (Interface_scalar t) ->
                    round_trip F v t = Panics "unreachable").
Proof.
  split; [reflexivity|].
  split; [apply round_trip_Integer|].
  split; [apply round_trip_Float|].
  split; [apply round_trip_Boolean|].
  split; [apply round_trip_Timestamp|].
  split; [|apply round_trip_panics].
  intros F t Hv Hf Hn. rewrite round_trip_Timestamp by assumption.
  now rewrite Truncate_Microsecond_whole.
Qed.

(** C1 at the least [int64], at an instant before the epoch with half a
    second and 1500 nanoseconds, at the [float64] nearest to 0.1, whose text
    is "0.1", and at the [float32] 1. *)
Lemma C1_round_trip_witness :
  (forall F, round_trip F (Vint (-9223372036854775808)) PrimitiveTypeInteger
             = Returns (Vint (-9223372036854775808), None))
  /\ (forall F, round_trip F (VTime (mkTime (-1) 500001500)) PrimitiveTypeTimestamp
                = Returns (VTime (mkTime (-1) 500001000), None))
  /\ round_trip strconv (Vfloat64 0x1.999999999999ap-4) PrimitiveTypeFloat
     = Returns (Vfloat64 0x1.999999999999ap-4, None)
  /\ ScalarString strconv (Vfloat64 0x1.999999999999ap-4) = Returns "0.1"
  /\ (forall F, round_trip F (Vfloat32 1) PrimitiveTypeFloat = Panics "unreachable").
Proof.
  split; [|split; [|split; [|split]]].
  - intros F. apply (proj1 (proj2 C1_round_trip)). reflexivity.
  - intros F.
    apply (proj1 (proj2 (proj2 (proj2 (proj2 C1_round_trip)))) F (mkTime (-1) 500001500));
      reflexivity.
  - apply (proj1 (proj2 (proj2 C1_round_trip))).
  - vm_compute. reflexivity.
  - intros F.
    apply (proj2 (proj2 (proj2 (proj2 (proj2 (proj2 C1_round_trip))))) F
             PrimitiveTypeFloat (Vfloat32 1));
      [reflexivity | reflexivity | discriminate].
Defined.

(** * Further properties of the code *)

(** X1: the zero value of every tag is detected as that tag:
    [TypeDetect (pt.Interface())] returns [pt], for the five scalar tags,
    the five list tags and Unknown. *)
Theorem X1_TypeDetect_Interface (pt : PrimitiveType) :
  (Interface pt ≫= TypeDetect) = Returns pt.
Proof. destruct pt; reflexivity. Qed.

(** X2: on a non-empty generic list whose elements share one dynamic type
    [T], [NormalizeAny] returns the slice of type [[]T] with the same
    elements, and no error. *)
Theorem X2_NormalizeAny_homogeneous (v0 : any) (r : list any) (T : GoType) :
  Forall (fun x => reflect_TypeOf x = Some T) (v0 :: r) ->
  NormalizeAny (Vslice Tinterface (v0 :: r)) = Returns (Vslice T (v0 :: r), None).
Proof.
  intros Hall. unfold NormalizeAny.
  assert (H0 : reflect_TypeOf v0 = Some T) by now inversion Hall.
  rewrite H0, (set_elements_homogeneous T _ Hall). reflexivity.
Qed.

(** X2 at a list of two floats. *)
Lemma X2_NormalizeAny_homogeneous_witness :
  NormalizeAny (Vslice Tinterface (Vfloat64 1%float :: Vfloat64 0%float :: nil))
  = Returns (Vslice Tfloat64 (Vfloat64 1%float :: Vfloat64 0%float :: nil), None).
Proof. apply (X2_NormalizeAny_homogeneous _ _ Tfloat64). repeat constructor. Defined.

(** X4: binding a feature under a free name returns no error, stores the
    feature under its name, leaves every other name as it was and moves the
    counter up by one. *)
Theorem X4_bindFeature_free_name (e : engine) (f : Feature) :
  features e !! FQN (descriptor f) = None ->
  fst (bindFeature f e) = None
  /\ HasFeature (snd (bindFeature f e)) (FQN (descriptor f)) = true
  /\ features (snd (bindFeature f e)) !! FQN (descriptor f) = Some f
  /\ (forall other, other <> FQN (descriptor f) ->
                    features (snd (bindFeature f e)) !! other = features e !! other)
  /\ NumberOfFeatures (snd (bindFeature f e)) = NumberOfFeatures e + 1.
Proof.
  intros H. rewrite (bindFeature_unbound f e H). cbn [fst snd].
  assert (Hl : features (stats_IncNumberOfFeatures
                 (logger_Info "feature bound" "FQN" (FQN (descriptor f))
                    (features_Store (FQN (descriptor f)) f e)))
               = <[FQN (descriptor f) := f]> (features e)) by reflexivity.
  unfold HasFeature. rewrite Hl, lookup_insert_eq. repeat split.
  intros other Hne. now apply lookup_insert_ne.
Qed.

(** X4 at the first feature of an empty engine. *)
Lemma X4_bindFeature_free_name_witness :
  fst (bindFeature hello_world empty_engine) = None
  /\ HasFeature (snd (bindFeature hello_world empty_engine)) "hello_world" = true
  /\ NumberOfFeatures (snd (bindFeature hello_world empty_engine)) = 1.
Proof.
  destruct (X4_bindFeature_free_name empty_engine hello_world eq_refl)
    as (H1 & H2 & _ & _ & H5).
  exact (conj H1 (conj H2 H5)).
Defined.

(** X5: [UnbindFeature] moves the counter down by one on every call, also
    for a name that is not bound, where the map of features keeps its size:
    the counter then no longer is the number of features. *)
Theorem X5_unbind_always_decrements (e : engine) (fqn : string) :
  NumberOfFeatures (snd (UnbindFeature fqn e)) = NumberOfFeatures e - 1
  /\ (features e !! fqn = None ->
      size (features (snd (UnbindFeature fqn e))) = size (features e)).
Proof.
  split; [reflexivity|]. intros H. unfold UnbindFeature, defer. simpl.
  now rewrite delete_id.
Qed.

(** X6: when the manifest parses and no applier is registered for its
    builder kind, [BindFeature] returns the error "no feature builder found
    for" the kind, wrapped once more, and leaves the engine, registry and
    counter alike, as it was. *)
Theorem X6_BindFeature_no_builder (P : plugins) (m : Manifest) (e : engine)
        (fd : FeatureDescriptor) :
  FeatureDescriptorFromManifest P m = (fd, None) ->
  FeatureAppliers P !! Builder fd = None ->
  BindFeature P m e =
  (Some (Wrapf "failed to parse FeatureDescriptor from CR: "
               (Errorf ("no feature builder found for " +:+ Builder fd)) ""),
   e).
Proof.
  intros Hp Hb. unfold BindFeature, FeatureWithEngine. rewrite Hp.
  cbn beta iota delta [descriptor]. unfold FeatureApply in *. now rewrite Hb.
Qed.

(** X6 at a manifest of builder kind "sql", for which the plugins hold no
    applier. *)
Lemma X6_BindFeature_no_builder_witness :
  BindFeature test_plugins sql_manifest empty_engine =
  (Some (Wrapf "failed to parse FeatureDescriptor from CR: "
               (Errorf "no feature builder found for sql") ""),
   empty_engine).
Proof.
  apply (X6_BindFeature_no_builder test_plugins sql_manifest empty_engine
           (mkFeatureDescriptor "daily_total" PrimitiveTypeInteger 60 3600 "sql"));
    reflexivity.
Defined.

(** X7: [BindDataSource] is an upsert: on every engine, bound under that
    name or not, it returns no error and [GetDataSource] then gives the new
    descriptor; it moves no counter. [UnbindDataSource] returns no error,
    and after it the name is absent and [GetDataSource] fails. *)
Theorem X7_data_sources (e : engine) (fd : DataSource) :
  fst (BindDataSource fd e) = None
  /\ GetDataSource (snd (BindDataSource fd e)) (ds_FQN fd) = (fd, None)
  /\ HasDataSource (snd (BindDataSource fd e)) (ds_FQN fd) = true
  /\ NumberOfFeatures (snd (BindDataSource fd e)) = NumberOfFeatures e
  /\ fst (UnbindDataSource (ds_FQN fd) e) = None
  /\ HasDataSource (snd (UnbindDataSource (ds_FQN fd) e)) (ds_FQN fd) = false
  /\ snd (GetDataSource (snd (UnbindDataSource (ds_FQN fd) e)) (ds_FQN fd))
     = Some (Errorf ("DataSource " +:+ ds_FQN fd +:+ " not found")).
Proof.
  unfold GetDataSource, HasDataSource, BindDataSource, UnbindDataSource.
  cbn [fst snd dataSources dataSources_Store dataSources_Delete NumberOfFeatures].
  rewrite lookup_insert_eq, lookup_delete_eq. repeat split.
Qed.

(** X7 at a source bound twice under one name. *)
Lemma X7_data_sources_witness :
  GetDataSource
    (snd (BindDataSource clicks_source_v2 (snd (BindDataSource clicks_source empty_engine))))
    "clicks"
  = (clicks_source_v2, None).
Proof.
  apply (X7_data_sources (snd (BindDataSource clicks_source empty_engine)) clicks_source_v2).
Defined.

(** ** The alias table *)
(** X3: the name [String] prints for a tag reads back as that tag through
    [StringToPrimitiveType], for every tag but FloatList, whose printed name
    "[]]float" reads back as Unknown; and no two tags print the same name. *)
Theorem X3_tag_names_read_back :
  (forall pt,
      StringToPrimitiveType (PrimitiveType_String pt) =
      match pt with
      | PrimitiveTypeFloatList => PrimitiveTypeUnknown
      | _ => pt
      end)
  /\ (forall a b, PrimitiveType_String a = PrimitiveType_String b -> a = b).
Proof.
  split.
  - intros pt. destruct pt; reflexivity.
  - intros a b. destruct a, b; simpl; intros H; first [reflexivity | discriminate H].
Qed.
Lemma ToLower_brackets (s : string) : ToLower ("[]" +:+ s) = "[]" +:+ ToLower s.
Proof. reflexivity. Qed.

Ltac split_alias x :=
  repeat match goal with
         | |- context [String.eqb x ?l] =>
             destruct (String.eqb_spec x l) as [->|?];
             [ cbn in *; first [reflexivity | congruence | discriminate] | ]
         end.
(** The list aliases of the table are the scalar aliases with "[]" in
    front, but for two names. *)
Lemma list_alias_law (s : string) :
  ToLower s <> "int64" -> ToLower s <> "datetime.datetime" ->
  Scalar (StringToPrimitiveType s) = true ->
  StringToPrimitiveType ("[]" +:+ s) = Plural (StringToPrimitiveType s).
Proof.
  unfold StringToPrimitiveType. rewrite ToLower_brackets.
  remember (ToLower s) as x eqn:Hx. clear Hx s.
  change ("[]" +:+ x) with (String "[" (String "]" x)).
  intros H1 H2 H3. simpl in *.
  split_alias x.
  reflexivity.
Qed.

(** X9: writing "[]" in front of an ASCII name that the table reads as a
    scalar tag or as Unknown gives the plural of its tag, for every such
    name but two (up to letter case): "int64", Unknown as a scalar but
    IntegerList as a list, and "datetime.datetime", Timestamp as a scalar
    but Unknown as a list. *)
Theorem X9_list_alias (s : string) :
  isASCII s = true ->
  ToLower s <> "int64" -> ToLower s <> "datetime.datetime" ->
  Scalar (StringToPrimitiveType s) = true ->
  StringToPrimitiveType ("[]" +:+ s) = Plural (StringToPrimitiveType s).
Proof. intros _. apply list_alias_law. Qed.

(** X9 at "Double" and at a name outside the table, and the two names it
    leaves out. *)
Lemma X9_list_alias_witness :
  StringToPrimitiveType "[]Double" = PrimitiveTypeFloatList
  /\ StringToPrimitiveType "[]json" = PrimitiveTypeUnknown
  /\ StringToPrimitiveType "[]int64" = PrimitiveTypeIntegerList
  /\ StringToPrimitiveType "int64" = PrimitiveTypeUnknown
  /\ StringToPrimitiveType "[]datetime.datetime" = PrimitiveTypeUnknown
  /\ StringToPrimitiveType "datetime.datetime" = PrimitiveTypeTimestamp.
Proof.
  split; [|split; [|repeat split]].
  - apply (X9_list_alias "Double");
      [reflexivity | discriminate | discriminate | reflexivity].
  - apply (X9_list_alias "json");
      [reflexivity | discriminate | discriminate | reflexivity].
Defined.

(** ** Normalisation and detection together *)

Lemma TypeDetect_typed_slice (T : GoType) (l : list any) :
  T <> Tinterface ->
  TypeDetect (Vslice T l) = Returns (StringToPrimitiveType ("[]" +:+ GoType_String T)).
Proof. intros H. destruct T; try reflexivity. now destruct H. Qed.

(** X10: on a non-empty generic list whose elements share one dynamic type
    [T], not the type of generic lists, [TypeDetect] reads the tag of the
    list from the name of [T], as the plural of the tag of that name, and
    the tag of the typed slice [NormalizeAny] returns from the name of
    [[]T]. The two tags are the same when the table reads the name of [T] as
    a scalar tag or as Unknown and the name is, up to letter case, neither
    "int64" nor "datetime.datetime". For [int64] they differ: the generic
    list is Unknown, the [[]int64] it normalises to is IntegerList. *)
Theorem X10_normalisation_keeps_tag (v0 : any) (r : list any) (T : GoType) :
  Forall (fun x => reflect_TypeOf x = Some T) (v0 :: r) ->
  T <> Tslice Tinterface ->
  exists v,
    NormalizeAny (Vslice Tinterface (v0 :: r)) = Returns (v, None)
    /\ TypeDetect (Vslice Tinterface (v0 :: r))
       = Returns (Plural (StringToPrimitiveType (GoType_String T)))
    /\ TypeDetect v = Returns (StringToPrimitiveType ("[]" +:+ GoType_String T))
    /\ (Scalar (StringToPrimitiveType (GoType_String T)) = true ->
        ToLower (GoType_String T) <> "int64" ->
        ToLower (GoType_String T) <> "datetime.datetime" ->
        TypeDetect v = TypeDetect (Vslice Tinterface (v0 :: r)))
    /\ (T = Tint64 ->
        TypeDetect (Vslice Tinterface (v0 :: r)) = Returns PrimitiveTypeUnknown
        /\ TypeDetect v = Returns PrimitiveTypeIntegerList).
Proof.
  intros Hall Hg. exists (Vslice T (v0 :: r)).
  assert (H0 : reflect_TypeOf v0 = Some T) by now inversion Hall.
  assert (Hi : T <> Tinterface).
  { intros ->. now apply (reflect_TypeOf_not_interface v0). }
  assert (Hgen : TypeDetect (Vslice Tinterface (v0 :: r))
                 = Returns (Plural (StringToPrimitiveType (GoType_String T)))).
  { apply TypeDetect_homogeneous; [discriminate | exact Hg | exact Hall]. }
  split; [|split; [|split; [|split]]].
  - unfold NormalizeAny. now rewrite H0, (set_elements_homogeneous T _ Hall).
  - exact Hgen.
  - apply TypeDetect_typed_slice, Hi.
  - intros Hs H1 H2. rewrite Hgen, (TypeDetect_typed_slice T _ Hi).
    now rewrite (list_alias_law _ H1 H2 Hs).
  - intros ->. split; [exact Hgen | reflexivity].
Qed.

(** X10 at a list of timestamps. *)
Lemma X10_normalisation_keeps_tag_witness :
  exists v,
    NormalizeAny (Vslice Tinterface (VTime (mkTime 0 0) :: VTime (mkTime 1 0) :: nil))
    = Returns (v, None)
    /\ TypeDetect v = Returns PrimitiveTypeTimestampList.
Proof.
  destruct (X10_normalisation_keeps_tag (VTime (mkTime 0 0)) (VTime (mkTime 1 0) :: nil)
              TTime ltac:(repeat constructor) ltac:(discriminate))
    as (v & Hn & _ & Hk & _).
  exists v. split; [exact Hn | exact Hk].
Defined.

(** X11: whatever [NormalizeAny] returns is no generic list, and
    [NormalizeAny] returns it unchanged when applied again. *)
Theorem X11_NormalizeAny_idempotent (t v : any) (err : option error) :
  NormalizeAny t = Returns (v, err) ->
  reflect_TypeOf v <> Some (Tslice Tinterface)
  /\ NormalizeAny v = Returns (v, None).
Proof.
  unfold NormalizeAny at 1. intros H.
  destruct t; try (inversion H; subst; split; [discriminate | reflexivity]).
  destruct elem; try (inversion H; subst; split; [discriminate | reflexivity]).
  destruct l as [|v0 r]; [inversion H; subst; split; [discriminate | reflexivity]|].
  destruct (reflect_TypeOf v0) as [T|] eqn:H0; [|discriminate H].
  destruct (set_elements T (v0 :: r)); simpl in H; [|discriminate H].
  inversion H; subst.
  assert (Hi : T <> Tinterface).
  { intros ->. now apply (reflect_TypeOf_not_interface v0). }
  split.
  - simpl. intros Heq. inversion Heq. contradiction.
  - destruct T; try reflexivity. now destruct Hi.
Qed.

(** X11 at a generic list of two strings. *)
Lemma X11_NormalizeAny_idempotent_witness :
  NormalizeAny (Vslice Tstring (Vstring "a" :: Vstring "b" :: nil))
  = Returns (Vslice Tstring (Vstring "a" :: Vstring "b" :: nil), None).
Proof.
  apply (X11_NormalizeAny_idempotent
           (Vslice Tinterface (Vstring "a" :: Vstring "b" :: nil)) _ None).
  reflexivity.
Defined.

(** X12: on a generic list [TypeDetect] never returns one of the five
    scalar tags: what it returns is a list tag or Unknown. *)
Theorem X12_TypeDetect_list_never_scalar (l : list any) (pt : PrimitiveType) :
  TypeDetect (Vslice Tinterface l) = Returns pt -> scalar_tag pt = false.
Proof.
  destruct l as [|v0 r]; [discriminate|].
  rewrite TypeDetect_generic_cons.
  destruct (same_type_as_first (v0 :: r)).
  - destruct (TypeDetect v0) as [a|]; simpl; intros H; inversion H.
    now destruct a.
  - intros H; inversion H. reflexivity.
Qed.

(** X12 at a list of lists of booleans. *)
Lemma X12_TypeDetect_list_never_scalar_witness :
  TypeDetect (Vslice Tinterface
                (Vslice Tinterface (Vbool true :: nil)
                   :: Vslice Tinterface (Vbool false :: nil) :: nil))
  = Returns PrimitiveTypeBooleanList
  /\ scalar_tag PrimitiveTypeBooleanList = false.
Proof.
  split; [reflexivity|].
  apply (X12_TypeDetect_list_never_scalar
           (Vslice Tinterface (Vbool true :: nil) :: Vslice Tinterface (Vbool false :: nil)
              :: nil)).
  reflexivity.
Defined.

Section ScalarDomains.
Context (F : strconv_float).

(** X13: [ScalarString] returns exactly on the values whose Go type is that
    of a scalar tag's zero value ([string], [int], [float64], [bool],
    [time.Time]) and panics with "unreachable" on every other value; so it
    panics on an [int32] and on a [float32], which [TypeDetect] tags Integer
    and Float. *)
Theorem X13_ScalarString_domain (v : any) :
  ((exists s, ScalarString F v = Returns s) <->
   (exists t, scalar_tag t = true
              /\ reflect_TypeOf v = reflect_TypeOf (Interface_scalar t)))
  /\ ((forall s, ScalarString F v <> Returns s) -> ScalarString F v = Panics "unreachable")
  /\ (forall i, TypeDetect (Vint32 i) = Returns PrimitiveTypeInteger
                /\ ScalarString F (Vint32 i) = Panics "unreachable")
  /\ (forall f, TypeDetect (Vfloat32 f) = Returns PrimitiveTypeFloat
                /\ ScalarString F (Vfloat32 f) = Panics "unreachable").
Proof.
  split; [split|split; [|split; split; reflexivity]].
  - intros [s H]. destruct v; try discriminate H.
    + now exists PrimitiveTypeString.
    + now exists PrimitiveTypeInteger.
    + now exists PrimitiveTypeFloat.
    + now exists PrimitiveTypeBoolean.
    + now exists PrimitiveTypeTimestamp.
  - intros [t [Ht H]].
    destruct t; try discriminate Ht; destruct v; try discriminate H;
      eexists; reflexivity.
  - intros H. destruct v; try reflexivity; exfalso; eapply H; reflexivity.
Qed.

(** X14: [ScalarFromString] returns (a value, an error, or both) for every
    text and every tag but Unknown, on which it panics with "unreachable":
    Unknown passes the guard for list tags and is no case of the switch. *)
Theorem X14_ScalarFromString_domain (s : string) (t : PrimitiveType) :
  ((exists r, ScalarFromString F s t = Returns r) <-> t <> PrimitiveTypeUnknown)
  /\ ScalarFromString F s PrimitiveTypeUnknown = Panics "unreachable".
Proof.
  split; [split|reflexivity].
  - intros [r H] ->. discriminate H.
  - intros Ht. unfold ScalarFromString.
    destruct t; cbn [Scalar negb]; try (eexists; reflexivity).
    + now destruct Ht.
    + destruct (Atoi s); eexists; reflexivity.
    + destruct (ParseFloat F s); eexists; reflexivity.
    + destruct (ParseBool s); eexists; reflexivity.
    + destruct (ParseInt s) as [n [e|]]; eexists; reflexivity.
Qed.

End ScalarDomains.

(** ** Values read from strings *)

Lemma digit_val_bound (c : ascii) : is_digit c = true -> 0 <= digit_val c <= 9.
Proof.
  unfold is_digit, digit_val. rewrite andb_true_iff, !Nat.leb_le. lia.
Qed.

Lemma Atoi_loop_bound (s : string) :
  forall a n, Atoi_loop s a = Some n -> 0 <= a ->
              0 <= n /\ n + 1 <= (a + 1) * 10 ^ Z.of_nat (String.length s).
Proof.
  induction s as [|c r IH]; intros a n H Ha; cbn [Atoi_loop String.length] in *.
  - inversion H; subst. change (10 ^ Z.of_nat 0) with 1. lia.
  - destruct (is_digit c) eqn:Hc; [|discriminate H].
    pose proof (digit_val_bound c Hc) as Hd.
    destruct (IH _ _ H ltac:(lia)) as [Hn Hb]. split; [exact Hn|].
    rewrite pow10_succ.
    assert (Hp : 0 < 10 ^ Z.of_nat (String.length r)) by (apply Z.pow_pos_nonneg; lia).
    nia.
Qed.

Lemma ParseUint_loop_nonneg (s : string) :
  forall n u e, ParseUint_loop s n = (u, e) -> 0 <= n -> 0 <= u.
Proof.
  induction s as [|c r IH]; intros n u e H Hn; cbn [ParseUint_loop] in H.
  - inversion H; subst. exact Hn.
  - destruct (is_digit c) eqn:Hc; [|inversion H; lia].
    pose proof (digit_val_bound c Hc) as Hd.
    destruct (maxUint64 / 10 + 1 <=? n); [inversion H; subst; now vm_compute|].
    destruct (maxUint64 <? n * 10 + digit_val c); [inversion H; subst; now vm_compute|].
    apply (IH _ _ _ H). lia.
Qed.

Lemma ParseInt_as_in_int64 (fn s : string) : in_int64 (fst (ParseInt_as fn s)) = true.
Proof.
  unfold ParseInt_as. destruct s as [|c r]; [reflexivity|].
  set (digits := if Ascii.eqb c "+" || Ascii.eqb c "-" then r else String c r).
  destruct (ParseUint digits) as [un e] eqn:Hp.
  assert (Hun : 0 <= un).
  { unfold ParseUint in Hp. destruct digits; [inversion Hp; lia|].
    now apply (ParseUint_loop_nonneg _ _ _ _ Hp). }
  assert (Hgoal : in_int64 (fst
             (if negb (Ascii.eqb c "-") && (2 ^ 63 <=? un)
              then (2 ^ 63 - 1, Some (NumError fn (String c r) ErrRange))
              else if Ascii.eqb c "-" && (2 ^ 63 <? un)
                   then (- 2 ^ 63, Some (NumError fn (String c r) ErrRange))
                   else (if Ascii.eqb c "-" then wrap64 (- wrap64 un) else wrap64 un,
                         @None error))) = true).
  { change (2 ^ 63) with 9223372036854775808.
    destruct (Ascii.eqb c "-"); cbn [negb andb].
    - destruct (Z.ltb_spec 9223372036854775808 un); [reflexivity|].
      cbn [fst]. rewrite wrap64_neg_magnitude
        by (change (2 ^ 63) with 9223372036854775808; lia).
      apply in_int64_spec. destruct int64_bounds as (-> & -> & _). lia.
    - destruct (Z.leb_spec 9223372036854775808 un); [reflexivity|].
      cbn [fst]. destruct int64_bounds as (Hmin & Hmax & _).
      rewrite wrap64_small by lia. apply in_int64_spec. lia. }
  destruct e as [[|]|]; [reflexivity | exact Hgoal | exact Hgoal].
Qed.

Lemma Atoi_in_int64 (s : string) : in_int64 (fst (Atoi s)) = true.
Proof.
  unfold Atoi.
  destruct ((0 <? String.length s)%nat && (String.length s <? 19)%nat) eqn:Hlen;
    [|apply ParseInt_as_in_int64].
  destruct s as [|c r]; [reflexivity|].
  apply andb_true_iff in Hlen as [_ Hlen]. apply Nat.ltb_lt in Hlen.
  cbn [String.length] in Hlen.
  set (signed := Ascii.eqb c "-" || Ascii.eqb c "+").
  set (digits := if signed then r else String c r).
  destruct (signed && (String.length digits <? 1)%nat); [reflexivity|].
  destruct (Atoi_loop digits 0) as [n|] eqn:Hl; [|reflexivity].
  destruct (Atoi_loop_bound _ _ _ Hl ltac:(lia)) as [Hn Hb].
  assert (Hd : (String.length digits <= 18)%nat).
  { subst digits. destruct signed; cbn [String.length]; lia. }
  assert (Hpow : 10 ^ Z.of_nat (String.length digits) <= 10 ^ 18).
  { apply Z.pow_le_mono_r; lia. }
  change (10 ^ 18) with 1000000000000000000 in Hpow.
  cbn [fst]. apply in_int64_spec. destruct int64_bounds as (-> & -> & _).
  destruct (Ascii.eqb c "-"); lia.
Qed.

Lemma time_UnixMicro_in_int64 (n : Z) :
  in_int64 n = true ->
  time_UnixMicro n = mkTime (n / 1000000) (n mod 1000000 * 1000).
Proof.
  intros Hn. apply in_int64_spec in Hn.
  destruct int64_bounds as (Hmin & Hmax & _). rewrite Hmin, Hmax in Hn.
  pose proof (Z.div_mod n 1000000 ltac:(lia)) as Hdm.
  pose proof (Z.mod_pos_bound n 1000000 ltac:(lia)) as Hm.
  replace n with (n / 1000000 * 1000000 + n mod 1000000) at 1 by lia.
  apply time_UnixMicro_of_parts; [rewrite Hmin, Hmax; lia | lia].
Qed.

Lemma time_UnixMicro_facts (n : Z) :
  in_int64 n = true ->
  valid_Time (time_UnixMicro n) = true
  /\ fits_UnixMicro (time_UnixMicro n) = true
  /\ nsec (time_UnixMicro n) mod 1000 = 0
  /\ Time_UnixMicro (time_UnixMicro n) = n.
Proof.
  intros Hn. rewrite (time_UnixMicro_in_int64 n Hn).
  pose proof Hn as Hn'. apply in_int64_spec in Hn'.
  destruct int64_bounds as (Hmin & Hmax & _). rewrite Hmin, Hmax in Hn'.
  pose proof (Z.div_mod n 1000000 ltac:(lia)) as Hdm.
  pose proof (Z.mod_pos_bound n 1000000 ltac:(lia)) as Hm.
  assert (Hv : valid_Time (mkTime (n / 1000000) (n mod 1000000 * 1000)) = true).
  { apply valid_Time_spec. cbn [unixSec nsec]. rewrite Hmin, Hmax. lia. }
  assert (Hq : n mod 1000000 * 1000 / 1000 = n mod 1000000) by (apply Z.div_mul; lia).
  assert (Hf : fits_UnixMicro (mkTime (n / 1000000) (n mod 1000000 * 1000)) = true).
  { unfold fits_UnixMicro. cbn [unixSec nsec]. rewrite Hq.
    apply in_int64_spec. rewrite Hmin, Hmax. lia. }
  repeat split; [exact Hv | exact Hf | apply Z.mod_mul; lia |].
  rewrite (Time_UnixMicro_fits _ Hv Hf). cbn [unixSec nsec]. rewrite Hq. lia.
Qed.

Section FromStrings.
Context (F : strconv_float).

(** X15: a value that [ScalarFromString] returns with a nil error for the
    tag [t] is detected as [t] by [TypeDetect], lies in the range of its Go
    type (an [int] within 64 bits, a time with its nanoseconds within the
    second), and, for every tag but Float, comes back exactly from
    [ScalarFromString (ScalarString v) t]: timestamps read from text have
    whole microseconds. *)
Theorem X15_values_from_strings (s : string) (t : PrimitiveType) (v : any) :
  ScalarFromString F s t = Returns (v, None) ->
  TypeDetect v = Returns t
  /\ in_range v = true
  /\ (t <> PrimitiveTypeFloat -> round_trip F v t = Returns (v, None)).
Proof.
  unfold ScalarFromString.
  destruct t; cbn [Scalar negb]; try discriminate.
  - intros H; inversion H; subst. repeat split.
  - pose proof (Atoi_in_int64 s) as Hr. destruct (Atoi s) as [n e]. cbn [fst] in Hr.
    intros H; inversion H; subst. repeat split; [exact Hr|].
    intros _. now apply round_trip_Integer.
  - destruct (ParseFloat F s) as [f e]. intros H; inversion H; subst.
    repeat split. intros Hne. now destruct Hne.
  - destruct (ParseBool s) as [b e]. intros H; inversion H; subst.
    repeat split. intros _. apply round_trip_Boolean.
  - pose proof (ParseInt_as_in_int64 "ParseInt" s) as Hr. unfold ParseInt.
    destruct (ParseInt_as "ParseInt" s) as [n [e|]]; [discriminate|].
    cbn [fst] in Hr. intros H; inversion H; subst.
    destruct (time_UnixMicro_facts n Hr) as (Hv & Hf & Hm & _).
    repeat split; [exact Hv|]. intros _.
    rewrite (round_trip_Timestamp F _ Hv Hf).
    now rewrite Truncate_Microsecond_whole.
Qed.

(** X16: the decimal text of every [int64] reads as a timestamp and is
    written back as the same text: [ScalarString (ScalarFromString s
    Timestamp)] is [s] for [s = FormatInt n], and the time read is in
    range. *)
Theorem X16_Timestamp_text_round_trip (n : Z) :
  in_int64 n = true ->
  exists t,
    ScalarFromString F (FormatInt n) PrimitiveTypeTimestamp = Returns (VTime t, None)
    /\ valid_Time t = true
    /\ ScalarString F (VTime t) = Returns (FormatInt n).
Proof.
  intros Hn. exists (time_UnixMicro n).
  destruct (time_UnixMicro_facts n Hn) as (Hv & _ & _ & Hu).
  unfold ScalarFromString, ParseInt. cbn [Scalar negb].
  rewrite (ParseInt_as_FormatInt "ParseInt" n Hn).
  repeat split; [exact Hv|]. cbn [ScalarString]. now rewrite Hu.
Qed.

End FromStrings.

(** X15 at the texts "-42" and "1700000000000001". *)
Lemma X15_values_from_strings_witness :
  (forall F, round_trip F (Vint (-42)) PrimitiveTypeInteger = Returns (Vint (-42), None))
  /\ (forall F, round_trip F (VTime (mkTime 1700000000 1000)) PrimitiveTypeTimestamp
                = Returns (VTime (mkTime 1700000000 1000), None)).
Proof.
  split; intros F.
  - apply (X15_values_from_strings F "-42" PrimitiveTypeInteger (Vint (-42)) eq_refl).
    discriminate.
  - apply (X15_values_from_strings F "1700000000000001" PrimitiveTypeTimestamp
             (VTime (mkTime 1700000000 1000)) eq_refl).
    discriminate.
Defined.

(** X16 at the text "-1", one microsecond before the epoch. *)
Lemma X16_Timestamp_text_round_trip_witness :
  (forall F, exists t,
      ScalarFromString F "-1" PrimitiveTypeTimestamp = Returns (VTime t, None)
      /\ valid_Time t = true
      /\ ScalarString F (VTime t) = Returns "-1")
  /\ time_UnixMicro (-1) = mkTime (-1) 999999000.
Proof.
  split; [|reflexivity].
  intros F. apply (X16_Timestamp_text_round_trip F (-1)). reflexivity.
Defined.

(** ** Sequences of calls *)

(** What one call does to the map of features, the counter, the data
    sources and the log. *)
Lemma step_features (c : call) (e : engine) :
  features (step c e) =
  match c with
  | Bind f => if HasFeature e (FQN (descriptor f)) then features e
              else <[FQN (descriptor f) := f]> (features e)
  | Unbind fqn => delete fqn (features e)
  end.
Proof.
  destruct c as [f|fqn]; unfold step, bindFeature, UnbindFeature, defer.
  - now destruct (HasFeature e (FQN (descriptor f))).
  - reflexivity.
Qed.

Lemma step_counter (c : call) (e : engine) :
  NumberOfFeatures (step c e) =
  match c with
  | Bind _ => NumberOfFeatures e + 1
  | Unbind _ => NumberOfFeatures e - 1
  end.
Proof.
  destruct c as [f|fqn]; unfold step, bindFeature, UnbindFeature, defer.
  - now destruct (HasFeature e (FQN (descriptor f))).
  - reflexivity.
Qed.

Lemma step_dataSources (c : call) (e : engine) : dataSources (step c e) = dataSources e.
Proof.
  destruct c as [f|fqn]; unfold step, bindFeature, UnbindFeature, defer.
  - now destruct (HasFeature e (FQN (descriptor f))).
  - reflexivity.
Qed.

Lemma run_cons (c : call) (cs : list call) (e : engine) :
  run (c :: cs) e = run cs (step c e).
Proof. reflexivity. Qed.

Lemma HasFeature_step (c : call) (e : engine) (fqn : string) :
  HasFeature (step c e) fqn =
  if String.eqb (call_FQN c) fqn
  then match c with Bind _ => true | Unbind _ => false end
  else HasFeature e fqn.
Proof.
  unfold HasFeature at 1. rewrite step_features.
  destruct (String.eqb_spec (call_FQN c) fqn) as [Heq|Hne];
    destruct c as [f|q]; cbn [call_FQN] in *.
  - subst fqn. unfold HasFeature.
    destruct (features e !! FQN (descriptor f)) eqn:Hf; [now rewrite Hf|].
    now rewrite lookup_insert_eq.
  - subst q. now rewrite lookup_delete_eq.
  - unfold HasFeature.
    destruct (features e !! FQN (descriptor f)); [reflexivity|].
    now rewrite lookup_insert_ne.
  - unfold HasFeature. now rewrite lookup_delete_ne.
Qed.

(** X17: after any sequence of binds and unbinds, [HasFeature] of a name is
    decided by the last call on that name: true after a bind (whether it
    succeeded or found the name bound), false after an unbind, and as
    before when no call named it. *)
Theorem X17_bound_iff_last_call (cs : list call) (e : engine) (fqn : string) :
  HasFeature (run cs e) fqn =
  match last_call_on fqn cs with
  | Some b => b
  | None => HasFeature e fqn
  end.
Proof.
  revert e. induction cs as [|c r IH]; intros e; [reflexivity|].
  rewrite run_cons, IH. cbn [last_call_on].
  destruct (last_call_on fqn r); [reflexivity|].
  rewrite HasFeature_step. now destruct (String.eqb (call_FQN c) fqn).
Qed.

(** X18: the feature counter counts calls, not features: after any
    sequence of calls it stands at its start value plus the number of binds
    minus the number of unbinds, whatever the calls did to the registry. *)
Theorem X18_counter_counts_calls (cs : list call) (e : engine) :
  NumberOfFeatures (run cs e) = NumberOfFeatures e + count_Bind cs - count_Unbind cs.
Proof.
  revert e. induction cs as [|c r IH]; intros e; [cbn; lia|].
  rewrite run_cons, IH, step_counter.
  destruct c; cbn [count_Bind count_Unbind]; lia.
Qed.

Lemma step_drift (c : call) (e : engine) :
  takes_effect c e = true ->
  NumberOfFeatures (step c e) - Z.of_nat (size (features (step c e)))
  = NumberOfFeatures e - Z.of_nat (size (features e)).
Proof.
  intros H. rewrite step_counter, step_features.
  destruct c as [f|q]; cbn [takes_effect] in H.
  - apply negb_true_iff in H. rewrite H.
    apply HasFeature_unbound in H. rewrite (map_size_insert_None _ _ _ H). lia.
  - unfold HasFeature in H. destruct (features e !! q) eqn:Hq; [|discriminate H].
    assert (Hs : size (delete q (features e)) = Init.Nat.pred (size (features e)))
      by (apply map_size_delete_Some; now rewrite Hq).
    assert (Hpos : size (features e) <> 0%nat).
    { intros H0. apply map_size_empty_iff in H0. rewrite H0 in Hq.
      now rewrite lookup_empty in Hq. }
    rewrite Hs. lia.
Qed.

(** X19: as long as every bind finds its name free and every unbind finds
    its name bound, a counter that started as the number of features still
    is the number of features. *)
Theorem X19_counter_is_size (cs : list call) (e : engine) :
  all_take_effect cs e = true ->
  NumberOfFeatures e = Z.of_nat (size (features e)) ->
  NumberOfFeatures (run cs e) = Z.of_nat (size (features (run cs e))).
Proof.
  revert e. induction cs as [|c r IH]; intros e Hall H0; [exact H0|].
  cbn [all_take_effect] in Hall. apply andb_true_iff in Hall as [Hc Hr].
  rewrite run_cons. apply IH; [exact Hr|].
  pose proof (step_drift c e Hc). lia.
Qed.

(** X19 at a bind, an unbind of the name and a bind of it again. *)
Lemma X19_counter_is_size_witness :
  NumberOfFeatures
    (run (Bind hello_world :: Unbind "hello_world" :: Bind hello_world_again :: nil)
         empty_engine)
  = Z.of_nat (size (features
       (run (Bind hello_world :: Unbind "hello_world" :: Bind hello_world_again :: nil)
            empty_engine))).
Proof.
  apply (X19_counter_is_size
           (Bind hello_world :: Unbind "hello_world" :: Bind hello_world_again :: nil)
           empty_engine); reflexivity.
Defined.

Lemma keyed_step (c : call) (e : engine) : keyed_by_FQN e -> keyed_by_FQN (step c e).
Proof.
  intros Hk k f. rewrite step_features. destruct c as [g|q].
  - destruct (HasFeature e (FQN (descriptor g))); [apply Hk|].
    destruct (decide (FQN (descriptor g) = k)) as [<-|Hne].
    + rewrite lookup_insert_eq. now intros [= <-].
    + rewrite lookup_insert_ne by exact Hne. apply Hk.
  - destruct (decide (q = k)) as [<-|Hne].
    + now rewrite lookup_delete_eq.
    + rewrite lookup_delete_ne by exact Hne. apply Hk.
Qed.

(** X20: every feature of the registry is stored under its own FQN, and
    no sequence of binds and unbinds breaks that. *)
Theorem X20_keyed_by_FQN (cs : list call) (e : engine) :
  keyed_by_FQN e -> keyed_by_FQN (run cs e).
Proof.
  revert e. induction cs as [|c r IH]; intros e Hk; [exact Hk|].
  rewrite run_cons. apply IH. now apply keyed_step.
Qed.

(** X20 at two binds on an empty engine. *)
Lemma X20_keyed_by_FQN_witness :
  keyed_by_FQN (run (Bind hello_world :: Bind hello_world_again :: nil) empty_engine).
Proof.
  apply (X20_keyed_by_FQN (Bind hello_world :: Bind hello_world_again :: nil) empty_engine).
  intros k f H. cbn in H. now rewrite lookup_empty in H.
Defined.

(** X21: two calls on different names can be made in either order: the
    registry and the counter end up the same (the log keeps the order). *)
Theorem X21_calls_on_distinct_names_commute (c1 c2 : call) (e : engine) :
  call_FQN c1 <> call_FQN c2 ->
  features (run (c1 :: c2 :: nil) e) = features (run (c2 :: c1 :: nil) e)
  /\ NumberOfFeatures (run (c1 :: c2 :: nil) e) = NumberOfFeatures (run (c2 :: c1 :: nil) e).
Proof.
  intros Hne. rewrite !run_cons. cbn [run fold_left]. split.
  - assert (Hne' : call_FQN c2 <> call_FQN c1) by congruence.
    destruct c1 as [f1|q1], c2 as [f2|q2]; cbn [call_FQN] in *;
      rewrite !step_features, ?HasFeature_step; cbn [call_FQN];
      rewrite ?(proj2 (String.eqb_neq _ _) Hne), ?(proj2 (String.eqb_neq _ _) Hne').
    + destruct (HasFeature e (FQN (descriptor f1))), (HasFeature e (FQN (descriptor f2)));
        try reflexivity. now apply insert_insert_ne.
    + destruct (HasFeature e (FQN (descriptor f1))); [reflexivity|].
      first [now apply delete_insert_ne | symmetry; now apply delete_insert_ne].
    + destruct (HasFeature e (FQN (descriptor f2))); [reflexivity|].
      first [now apply delete_insert_ne | symmetry; now apply delete_insert_ne].
    + apply delete_delete.
  - rewrite !step_counter. destruct c1, c2; lia.
Qed.

(** X21 at a bind of one name and an unbind of another. *)
Lemma X21_calls_on_distinct_names_commute_witness :
  features (run (Bind hello_world :: Unbind "other" :: nil) empty_engine)
  = features (run (Unbind "other" :: Bind hello_world :: nil) empty_engine)
  /\ NumberOfFeatures (run (Bind hello_world :: Unbind "other" :: nil) empty_engine)
     = NumberOfFeatures (run (Unbind "other" :: Bind hello_world :: nil) empty_engine).
Proof.
  apply (X21_calls_on_distinct_names_commute (Bind hello_world) (Unbind "other")).
  discriminate.
Defined.

(** X8: binding a feature under a free name and then unbinding that name
    gives back the registry and the counter as they were. *)
Theorem X8_bind_then_unbind (f : Feature) (e : engine) :
  features e !! FQN (descriptor f) = None ->
  features (run (Bind f :: Unbind (FQN (descriptor f)) :: nil) e) = features e
  /\ NumberOfFeatures (run (Bind f :: Unbind (FQN (descriptor f)) :: nil) e)
     = NumberOfFeatures e.
Proof.
  intros H. rewrite !run_cons. cbn [run fold_left]. split.
  - rewrite !step_features. rewrite (proj1 (HasFeature_unbound _ _) H).
    rewrite delete_insert_eq. now apply delete_id.
  - rewrite !step_counter. lia.
Qed.

(** X8 at [hello_world] on an empty engine. *)
Lemma X8_bind_then_unbind_witness :
  features (run (Bind hello_world :: Unbind "hello_world" :: nil) empty_engine)
  = features empty_engine
  /\ NumberOfFeatures (run (Bind hello_world :: Unbind "hello_world" :: nil) empty_engine)
     = NumberOfFeatures empty_engine.
Proof. apply (X8_bind_then_unbind hello_world empty_engine). reflexivity. Defined.

(** X22: the two registries do not touch each other: no sequence of binds
    and unbinds of features changes the data sources, and binding or
    unbinding a data source changes no feature. *)
Theorem X22_registries_independent (cs : list call) (e : engine) (d : DataSource) (q : string) :
  dataSources (run cs e) = dataSources e
  /\ features (snd (BindDataSource d e)) = features e
  /\ features (snd (UnbindDataSource q e)) = features e
  /\ (forall fqn, HasFeature (snd (BindDataSource d e)) fqn = HasFeature e fqn)
  /\ (forall fqn, HasDataSource (run cs e) fqn = HasDataSource e fqn).
Proof.
  assert (Hd : forall cs e, dataSources (run cs e) = dataSources e).
  { clear. induction cs as [|c r IH]; intros e; [reflexivity|].
    now rewrite run_cons, IH, step_dataSources. }
  repeat split; [apply Hd|]. intros fqn. unfold HasDataSource. now rewrite Hd.
Qed.

(** ** Binding through the plugins *)

(** X23: when the manifest does not parse, [BindFeature] leaves the engine
    as it was and returns the parser's error wrapped twice in "failed to
    parse FeatureDescriptor from CR", once by [FeatureWithEngine] and once
    by [BindFeature]; [errors.Is] still finds whatever the parser's error
    wraps. *)
Theorem X23_BindFeature_parse_failure (P : plugins) (m : Manifest) (e : engine)
        (fd : FeatureDescriptor) (perr : error) :
  FeatureDescriptorFromManifest P m = (fd, Some perr) ->
  BindFeature P m e
  = (Some (Wrapf "failed to parse FeatureDescriptor from CR: "
                 (Wrapf "failed to parse FeatureDescriptor from CR: " perr "") ""), e)
  /\ (forall target err, fst (BindFeature P m e) = Some err ->
                         errors_Is err target = errors_Is perr target).
Proof.
  intros Hp. unfold BindFeature, FeatureWithEngine. rewrite Hp. split; [reflexivity|].
  intros target err H. cbn [fst] in H. inversion H. reflexivity.
Qed.

(** X23 at a manifest of primitive type "json". *)
Lemma X23_BindFeature_parse_failure_witness :
  BindFeature strict_plugins json_manifest empty_engine
  = (Some (Wrapf "failed to parse FeatureDescriptor from CR: "
                 (Wrapf "failed to parse FeatureDescriptor from CR: "
                        (Sentinel "ErrUnsupportedPrimitiveError") "") ""), empty_engine).
Proof.
  apply (X23_BindFeature_parse_failure strict_plugins json_manifest empty_engine
           (mkFeatureDescriptor "payload" PrimitiveTypeUnknown 0 0 "expression")).
  reflexivity.
Defined.

(** X24: when the manifest parses and an applier is registered for its
    builder kind, [BindFeature] runs the applier on the fresh feature: if
    the applier fails, its error comes back wrapped and nothing is bound;
    if it succeeds and the name of the feature it returns is free, that
    feature is stored under its name in the engine the applier left, and
    the counter moves up by one. *)
Theorem X24_BindFeature_with_applier (P : plugins) (m : Manifest) (e e1 : engine)
        (fd : FeatureDescriptor) (p : FeatureApply) (ft : Feature) (r : option error) :
  FeatureDescriptorFromManifest P m = (fd, None) ->
  FeatureAppliers P !! Builder fd = Some p ->
  p fd (Spec_Builder m) (mkFeature fd nil) e = ((ft, r), e1) ->
  (forall err, r = Some err ->
               BindFeature P m e
               = (Some (Wrapf "failed to parse FeatureDescriptor from CR: " err ""), e1))
  /\ (r = None -> features e1 !! FQN (descriptor ft) = None ->
      fst (BindFeature P m e) = None
      /\ features (snd (BindFeature P m e)) = <[FQN (descriptor ft) := ft]> (features e1)
      /\ NumberOfFeatures (snd (BindFeature P m e)) = NumberOfFeatures e1 + 1).
Proof.
  intros Hp Hb Hr. unfold BindFeature, FeatureWithEngine. rewrite Hp.
  cbn beta iota delta [descriptor]. unfold FeatureApply in *. rewrite Hb, Hr. split.
  - intros err ->. reflexivity.
  - intros -> Hfree. rewrite (bindFeature_unbound ft e1 Hfree). repeat split.
Qed.

(** X24 at a manifest whose applier fails and at one whose applier
    succeeds. *)
Lemma X24_BindFeature_with_applier_witness :
  BindFeature strict_plugins broken_manifest empty_engine
  = (Some (Wrapf "failed to parse FeatureDescriptor from CR: " (Errorf "bad spec") ""),
     empty_engine)
  /\ fst (BindFeature strict_plugins hello_world_manifest empty_engine) = None.
Proof.
  split.
  - apply (proj1 (X24_BindFeature_with_applier strict_plugins broken_manifest
                    empty_engine empty_engine
                    (mkFeatureDescriptor "daily_total" PrimitiveTypeInteger 60 3600 "broken")
                    (fun _ _ ft e => ((ft, Some (Errorf "bad spec")), e))
                    _ _ eq_refl eq_refl eq_refl)).
    reflexivity.
  - apply (proj2 (X24_BindFeature_with_applier strict_plugins hello_world_manifest
                    empty_engine empty_engine
                    (mkFeatureDescriptor "hello_world" PrimitiveTypeString 0 0 "expression")
                    (fun _ _ ft e => ((ft, None), e))
                    _ _ eq_refl eq_refl eq_refl)); reflexivity.
Defined.

(** X25: [FeatureWithEngine] only validates: with appliers that leave the
    engine alone, it returns the engine as it was, whatever its result, and
    a [BindFeature] that fails in it leaves registry and counter
    unchanged. *)
Theorem X25_validation_binds_nothing (P : plugins) (m : Manifest) (e : engine) :
  (forall kind p, FeatureAppliers P !! kind = Some p ->
                  forall md spec ft e0, snd (p md spec ft e0) = e0) ->
  snd (FeatureWithEngine P m e) = e
  /\ (forall err, fst (FeatureWithEngine P m e) = inr err ->
                  snd (BindFeature P m e) = e).
Proof.
  intros Hpure.
  assert (H1 : snd (FeatureWithEngine P m e) = e).
  { unfold FeatureWithEngine.
    destruct (FeatureDescriptorFromManifest P m) as [fd [perr|]]; [reflexivity|].
    cbn beta iota delta [descriptor].
    match goal with
    | |- context [match ?x with Some _ => _ | None => _ end] =>
        destruct x as [p|] eqn:Hb; [|reflexivity]
    end.
    pose proof (Hpure _ p Hb fd (Spec_Builder m) (mkFeature fd nil) e) as Hs.
    destruct (p fd (Spec_Builder m) (mkFeature fd nil) e) as [[ft [err|]] e1];
      cbn [snd] in *; exact Hs. }
  split; [exact H1|].
  intros err Herr. unfold BindFeature.
  destruct (FeatureWithEngine P m e) as [[ft|err'] e1]; cbn [fst snd] in *;
    [discriminate Herr | exact H1].
Qed.

(** X25 at an engine that holds [hello_world]. *)
Lemma X25_validation_binds_nothing_witness :
  snd (FeatureWithEngine strict_plugins hello_world_manifest
         (snd (bindFeature hello_world empty_engine)))
  = snd (bindFeature hello_world empty_engine).
Proof.
  apply (X25_validation_binds_nothing strict_plugins).
  intros kind p Hp md spec ft e0.
  unfold strict_plugins in Hp. cbn [FeatureAppliers] in Hp.
  destruct (decide (kind = "broken")) as [->|Hk].
  - rewrite lookup_insert_eq in Hp. now inversion Hp.
  - rewrite lookup_insert_ne in Hp by congruence.
    destruct (decide (kind = "expression")) as [->|Hk'].
    + rewrite lookup_singleton_eq in Hp. now inversion Hp.
    + rewrite lookup_singleton_ne in Hp by congruence. discriminate Hp.
Defined.

(** ** Tags *)

(** X26: [Singular] always gives a tag that [Scalar] accepts, and [Plural]
    gives a tag that [Scalar] rejects for every tag but Unknown; applying
    [Singular] or [Plural] twice is applying it once; and [Singular] and
    [Plural] agree with [Scalar]: a tag is its own singular exactly when it
    is scalar. *)
Theorem X26_tag_forms (t : PrimitiveType) :
  Scalar (Singular t) = true
  /\ (t <> PrimitiveTypeUnknown -> Scalar (Plural t) = false)
  /\ Singular (Singular t) = Singular t
  /\ Plural (Plural t) = Plural t
  /\ (Singular t = t <-> Scalar t = true).
Proof.
  repeat split; try (destruct t; reflexivity).
  - intros H. destruct t; try reflexivity. now destruct H.
  - destruct t; simpl; intros H; first [reflexivity | discriminate H].
  - destruct t; simpl; intros H; first [reflexivity | discriminate H].
Qed.
